(** * Swept-profile picture frame: a point-set model of [picture_frame_swept.py]

    The script builds the cross-section of a frame molding from straight and
    Bezier edges, extrudes it once per side, cuts a miter at both ends of
    each side with two oversized boxes, places the four sides and fuses
    them.

    Coordinates are real numbers.  A shape is the set of its points, given
    in the shape's own frame, together with the location at which the shape
    stands.  Shapes and faces are objects of a store, because [locate]
    changes its receiver in place while [extrude], [cut] and [+] return new
    objects.  The builder contexts of the sketch are a small state monad
    that collects the edges in the order in which they are created. *)

From Stdlib Require Import String.
From Stdlib Require Import Reals Lra Lia List Arith PeanoNat.
Import ListNotations.
Local Open Scope R_scope.

(** * The model *)

(** ** Plane and space vectors *)

Definition Vec2 : Type := (R * R)%type.

Record Vector : Type := mkVector { X : R; Y : R; Z : R }.

Definition vadd (a b : Vector) : Vector :=
  mkVector (X a + X b) (Y a + Y b) (Z a + Z b).

Definition vsub (a b : Vector) : Vector :=
  mkVector (X a - X b) (Y a - Y b) (Z a - Z b).

Definition dot (a b : Vector) : R := X a * X b + Y a * Y b + Z a * Z b.

(** ** Edges of a sketch: [Line] and [Bezier] *)

Inductive Edge : Type :=
| Line (start_pt end_pt : Vec2)
| Bezier (cntl_pnts : list Vec2).

Definition lerp (t : R) (a b : Vec2) : Vec2 :=
  ((1 - t) * fst a + t * fst b, (1 - t) * snd a + t * snd b).

(** One round of de Casteljau's construction: interpolate neighbours. *)
Fixpoint casteljau_step (t : R) (pts : list Vec2) : list Vec2 :=
  match pts with
  | a :: (b :: _) as rest => lerp t a b :: casteljau_step t rest
  | _ => []
  end.

Fixpoint casteljau (rounds : nat) (t : R) (pts : list Vec2) : Vec2 :=
  match rounds with
  | O => hd (0, 0) pts
  | S k => casteljau k t (casteljau_step t pts)
  end.

(** A Bezier curve of any degree: one control point more than the degree. *)
Definition bezier_at (pts : list Vec2) (t : R) : Vec2 :=
  casteljau (pred (length pts)) t pts.

(** [e @ t]: the point of the edge at parameter [t], from 0 to 1. *)
Definition position_at (e : Edge) (t : R) : Vec2 :=
  match e with
  | Line a b => lerp t a b
  | Bezier pts => bezier_at pts t
  end.

Notation "e @ t" := (position_at e t) (at level 20, no associativity).

(** The degree of the polynomial that parametrises the edge. *)
Definition degree (e : Edge) : nat :=
  match e with
  | Line _ _ => 1%nat
  | Bezier pts => pred (length pts)
  end.

(** The points that define an edge. *)
Definition control_points (e : Edge) : list Vec2 :=
  match e with
  | Line a b => [a; b]
  | Bezier pts => pts
  end.

Definition start_point (e : Edge) : Vec2 := e @ 0.

Definition end_point (e : Edge) : Vec2 := e @ 1.

Definition on_edge (e : Edge) (p : Vec2) : Prop :=
  exists t, 0 <= t <= 1 /\ p = e @ t.

Definition on_wire (w : list Edge) (p : Vec2) : Prop :=
  exists e, In e w /\ on_edge e p.

(** Every edge starts where the one before it ends. *)
Fixpoint chained (w : list Edge) : Prop :=
  match w with
  | e1 :: ((e2 :: _) as rest) => end_point e1 = start_point e2 /\ chained rest
  | _ => True
  end.

(** A chained wire whose last edge ends where the first one starts. *)
Definition closed_wire (w : list Edge) : Prop :=
  chained w /\
  end_point (last w (Line (0, 0) (0, 0))) =
  start_point (hd (Line (0, 0) (0, 0)) w).

(** ** Builder contexts

    Inside [with BuildLine()] every edge that is created is also recorded in
    the context; when the block ends the edges are the pending edges of the
    enclosing [BuildSketch], and [make_face()] turns them into a face. *)

Record Face : Type := mkFace { outer_wire : list Edge }.

Record BuildCtx : Type := mkCtx {
  pending_edges : list Edge;
  sketch_faces : list Face
}.

Definition Builder (A : Type) : Type := BuildCtx -> A * BuildCtx.

Definition bbind {A B} (m : Builder A) (f : A -> Builder B) : Builder B :=
  fun c => let (a, c') := m c in f a c'.

Notation "x <~ m ;; k" := (bbind m (fun x => k))
  (at level 61, m at next level, right associativity).

Definition add_edge (e : Edge) : Builder Edge :=
  fun c => (e, mkCtx (pending_edges c ++ [e]) (sketch_faces c)).

Definition BLine (a b : Vec2) : Builder Edge := add_edge (Line a b).

Definition BBezier (pts : list Vec2) : Builder Edge := add_edge (Bezier pts).

Definition make_face : Builder unit :=
  fun c => (tt, mkCtx [] (sketch_faces c ++ [mkFace (pending_edges c)])).

Definition empty_ctx : BuildCtx := mkCtx [] [].

(** [profile.face()]: the face of the sketch. *)
Definition sketch_face (c : BuildCtx) : Face :=
  hd (mkFace []) (sketch_faces c).

(** The planar region bounded by the wire of a face.  The wires built here
    run from left to right along the back of the molding and from right to
    left along its front, so the region is swept by the vertical chords of
    the wire: a point belongs to the face when the wire passes below and
    above it. *)
Definition in_face (f : Face) (p : Vec2) : Prop :=
  exists y1 y2,
    on_wire (outer_wire f) (fst p, y1) /\
    on_wire (outer_wire f) (fst p, y2) /\
    y1 <= snd p <= y2.

(** ** Module-level dimensions and the profile *)

Record Globals : Type := mkGlobals {
  painting_width : R;
  painting_height : R;
  frame_width : R;
  frame_depth : R;
  rabbet_width : R;
  rabbet_depth : R
}.

(** The values written in the script. *)
Definition script_globals : Globals := mkGlobals 200 150 40 20 8 6.

Definition peak_height (g : Globals) : R := frame_depth g + 8.

(** The body of the [with BuildLine() as outline] block of
    [create_frame_profile], followed by [make_face()]. *)
Definition outline (g : Globals) : Builder unit :=
  l1 <~ BLine (0, 0) (frame_width g - rabbet_width g, 0) ;;
  l2 <~ BLine (l1 @ 1) (frame_width g - rabbet_width g, rabbet_depth g) ;;
  l3 <~ BLine (l2 @ 1) (frame_width g, rabbet_depth g) ;;
  l4 <~ BLine (l3 @ 1) (frame_width g, frame_depth g) ;;
  bezier <~ BBezier [ l4 @ 1;
                      (frame_width g * 0.85, frame_depth g + 4);
                      (frame_width g * 0.75, peak_height g);
                      (frame_width g * 0.6, peak_height g) ] ;;
  bezier2 <~ BBezier [ bezier @ 1;
                       (frame_width g * 0.45, peak_height g);
                       (frame_width g * 0.4, peak_height g - 5);
                       (frame_width g * 0.2, frame_depth g + 5) ] ;;
  bezier3 <~ BBezier [ bezier2 @ 1;
                       (frame_width g * 0.05, frame_depth g + 1);
                       (0, frame_depth g) ] ;;
  l5 <~ BLine (bezier3 @ 1) (0, 0) ;;
  make_face.

Definition profile_face (g : Globals) : Face :=
  sketch_face (snd (outline g empty_ctx)).

(** ** Locations: a position and three angles in degrees

    [Location((x, y, z), (rx, ry, rz))] rotates about X, then about the new
    Y, then about the new Z (intrinsic XYZ), and translates. *)

Definition radians (deg : R) : R := deg * PI / 180.

Definition rot_x (a : R) (v : Vector) : Vector :=
  mkVector (X v) (Y v * cos a - Z v * sin a) (Y v * sin a + Z v * cos a).

Definition rot_y (a : R) (v : Vector) : Vector :=
  mkVector (X v * cos a + Z v * sin a) (Y v) (- X v * sin a + Z v * cos a).

Definition rot_z (a : R) (v : Vector) : Vector :=
  mkVector (X v * cos a - Y v * sin a) (X v * sin a + Y v * cos a) (Z v).

Record Location : Type := mkLocation {
  position : Vector;
  orientation : Vector
}.

Definition rotate (o : Vector) (v : Vector) : Vector :=
  rot_x (radians (X o)) (rot_y (radians (Y o)) (rot_z (radians (Z o)) v)).

Definition transform (l : Location) (v : Vector) : Vector :=
  vadd (rotate (orientation l) v) (position l).

Definition origin_location : Location :=
  mkLocation (mkVector 0 0 0) (mkVector 0 0 0).

(** ** Shapes *)

Definition PointSet : Type := Vector -> Prop.

Record Shape : Type := mkShape {
  geometry : PointSet;
  location : Location
}.

(** The points of a shape, in the frame in which the shape is placed. *)
Definition points (s : Shape) : PointSet :=
  fun p => exists q, geometry s q /\ p = transform (location s) q.

Inductive Align : Type := MIN | CENTER | MAX.

Definition align_offset (a : Align) (size : R) : R :=
  match a with
  | MIN => 0
  | CENTER => - size / 2
  | MAX => - size
  end.

Definition within (a : Align) (size : R) (c : R) : Prop :=
  align_offset a size <= c <= align_offset a size + size.

Definition Box (len width height : R) (align : Align * Align * Align) : Shape :=
  let '(ax, ay, az) := align in
  mkShape (fun p => within ax len (X p) /\ within ay width (Y p) /\
                    within az height (Z p))
          origin_location.

(** [extrude(face, amount)] sweeps the face along the normal of its plane,
    the Z axis for a sketch on [Plane.XY]. *)
Definition extrude (f : Face) (amount : R) : Shape :=
  mkShape (fun p => in_face f (X p, Y p) /\
                    Rmin 0 amount <= Z p <= Rmax 0 amount)
          origin_location.

(** [s.locate(l)] replaces the location of [s]. *)
Definition locate (s : Shape) (l : Location) : Shape :=
  mkShape (geometry s) l.

(** [a.cut(b)]: the points of [a] that are not points of [b]. *)
Definition cut (a b : Shape) : Shape :=
  mkShape (fun p => points a p /\ ~ points b p) origin_location.

(** [a + b]: the points of either. *)
Definition fuse (a b : Shape) : Shape :=
  mkShape (fun p => points a p \/ points b p) origin_location.

Definition empty_shape : Shape := mkShape (fun _ => False) origin_location.

(** ** The object store

    [create_frame_profile], [extrude], [Box], [cut] and [+] return new
    objects; [locate] changes the object it is called on and returns it. *)

Inductive Obj : Type :=
| OFace (f : Face)
| OShape (s : Shape).

Definition ref : Type := nat.

Record World : Type := mkWorld {
  globals : Globals;
  heap : ref -> option Obj;
  next_ref : ref
}.

Definition M (A : Type) : Type := World -> A * World.

Definition ret {A} (a : A) : M A := fun w => (a, w).

Definition bind {A B} (m : M A) (f : A -> M B) : M B :=
  fun w => let (a, w') := m w in f a w'.

Notation "x <- m ;; k" := (bind m (fun x => k))
  (at level 61, m at next level, right associativity).

Definition read_globals : M Globals := fun w => (globals w, w).

Definition alloc (o : Obj) : M ref :=
  fun w => (next_ref w,
            mkWorld (globals w)
                    (fun r => if Nat.eqb r (next_ref w) then Some o
                              else heap w r)
                    (S (next_ref w))).

Definition store (r : ref) (o : Obj) : M unit :=
  fun w => (tt,
            mkWorld (globals w)
                    (fun r' => if Nat.eqb r' r then Some o else heap w r')
                    (next_ref w)).

Definition face_at (w : World) (r : ref) : Face :=
  match heap w r with
  | Some (OFace f) => f
  | _ => mkFace []
  end.

Definition shape_at (w : World) (r : ref) : Shape :=
  match heap w r with
  | Some (OShape s) => s
  | _ => empty_shape
  end.

Definition load_face (r : ref) : M Face := fun w => (face_at w r, w).

Definition load_shape (r : ref) : M Shape := fun w => (shape_at w r, w).

Definition extrude_obj (face : ref) (amount : R) : M ref :=
  f <- load_face face ;;
  alloc (OShape (extrude f amount)).

Definition Box_obj (len width height : R) (align : Align * Align * Align)
  : M ref :=
  alloc (OShape (Box len width height align)).

Definition locate_obj (self : ref) (l : Location) : M ref :=
  s <- load_shape self ;;
  _ <- store self (OShape (locate s l)) ;;
  ret self.

Definition cut_obj (a b : ref) : M ref :=
  sa <- load_shape a ;;
  sb <- load_shape b ;;
  alloc (OShape (cut sa sb)).

Definition add_obj (a b : ref) : M ref :=
  sa <- load_shape a ;;
  sb <- load_shape b ;;
  alloc (OShape (fuse sa sb)).

Definition initial_world (g : Globals) : World :=
  mkWorld g (fun _ => None) 0%nat.

(** ** The script *)

Definition create_frame_profile : M ref :=
  g <- read_globals ;;
  alloc (OFace (profile_face g)).

Record SideProps : Type := mkSideProps { loc : Location; len : R }.

Definition orientations (width height : R) : list (string * SideProps) :=
  [ ("left"%string,
     mkSideProps (mkLocation (mkVector 0 0 0) (mkVector 90 0 0)) height);
    ("right"%string,
     mkSideProps (mkLocation (mkVector width (- height) 0) (mkVector 90 180 0))
                 height);
    ("bottom"%string,
     mkSideProps (mkLocation (mkVector 0 (- height) 0) (mkVector 90 90 0))
                 width);
    ("top"%string,
     mkSideProps (mkLocation (mkVector width 0 0) (mkVector 90 (-90) 0))
                 width) ].

Definition cut_one_location (g : Globals) : Location :=
  mkLocation (mkVector 0 (frame_depth g) 0) (mkVector 0 45 0).

Definition cut_two_location (g : Globals) (length : R) : Location :=
  mkLocation (mkVector 0 (frame_depth g) length) (mkVector 0 (-45) 0).

(** The body of the loop over [orientations.items()]. *)
Definition build_side (props : SideProps) : M ref :=
  let length := len props in
  profile <- create_frame_profile ;;
  side <- extrude_obj profile length ;;
  g <- read_globals ;;
  box1 <- Box_obj length (frame_depth g * 2) (length * 4)
                  (MIN, CENTER, CENTER) ;;
  cut_one <- locate_obj box1 (cut_one_location g) ;;
  side <- cut_obj side cut_one ;;
  g <- read_globals ;;
  box2 <- Box_obj length (frame_depth g * 2) (length * 4)
                  (MIN, CENTER, CENTER) ;;
  cut_two <- locate_obj box2 (cut_two_location g length) ;;
  side <- cut_obj side cut_two ;;
  side <- locate_obj side (loc props) ;;
  ret side.

Fixpoint for_each_side (items : list (string * SideProps))
                       (sides : list ref) : M (list ref) :=
  match items with
  | [] => ret sides
  | (_, props) :: rest =>
      side <- build_side props ;;
      for_each_side rest (sides ++ [side])
  end.

Definition create_picture_frame (width height : R) : M ref :=
  sides <- for_each_side (orientations width height) [] ;;
  s01 <- add_obj (nth 0 sides O) (nth 1 sides O) ;;
  s012 <- add_obj s01 (nth 2 sides O) ;;
  add_obj s012 (nth 3 sides O).

(** The default arguments of [create_picture_frame]. *)
Definition default_width (g : Globals) : R :=
  painting_width g + 2 * frame_width g.

Definition default_height (g : Globals) : R :=
  painting_height g + 2 * frame_width g.

(** [frame = create_picture_frame()]. *)
Definition main : M ref :=
  g <- read_globals ;;
  create_picture_frame (default_width g) (default_height g).

(** The frame that the script builds in world [w]. *)
Definition frame_of (w : World) : Shape :=
  let (frame, w') := main w in shape_at w' frame.

(** ** Outcomes

    The error kinds of Section 7 of the specification.  The script raises
    none of them: it has no [raise] statement and tests none of its
    dimensions. *)

Inductive Error : Type :=
| DegenerateProfile
| ExtrusionFailure
| BooleanCutFailure
| AssemblyFailure.

Inductive Outcome (A : Type) : Type :=
| Returned (a : A)
| Raised (e : Error).

Arguments Returned {A} a.
Arguments Raised {A} e.

(** A call of [create_frame_profile()] with the module-level dimensions [g]. *)
Definition profile_builder (g : Globals) : Outcome Face :=
  let (profile, w) := create_frame_profile (initial_world g) in
  Returned (face_at w profile).

(** ** The values the script computes, written as expressions *)

Definition cut_box (g : Globals) (length : R) : Shape :=
  Box length (frame_depth g * 2) (length * 4) (MIN, CENTER, CENTER).

Definition cut_one (g : Globals) (length : R) : Shape :=
  locate (cut_box g length) (cut_one_location g).

Definition cut_two (g : Globals) (length : R) : Shape :=
  locate (cut_box g length) (cut_two_location g length).

Definition extruded_side (g : Globals) (length : R) : Shape :=
  extrude (profile_face g) length.

Definition mitered_side (g : Globals) (length : R) : Shape :=
  cut (cut (extruded_side g length) (cut_one g length)) (cut_two g length).

Definition placed_side (g : Globals) (props : SideProps) : Shape :=
  locate (mitered_side g (len props)) (loc props).

(** The values of [orientations], in the order of the dictionary. *)
Definition side_props (width height : R) (i : nat) : SideProps :=
  snd (nth i (orientations width height)
           (""%string, mkSideProps origin_location 0)).

Definition left_side (width height : R) : SideProps :=
  side_props width height 0.

Definition right_side (width height : R) : SideProps :=
  side_props width height 1.

Definition bottom_side (width height : R) : SideProps :=
  side_props width height 2.

Definition top_side (width height : R) : SideProps :=
  side_props width height 3.

(** [sides[0] + sides[1] + sides[2] + sides[3]]. *)
Definition frame_solid (g : Globals) (width height : R) : Shape :=
  fuse (fuse (fuse (placed_side g (left_side width height))
                   (placed_side g (right_side width height)))
             (placed_side g (bottom_side width height)))
       (placed_side g (top_side width height)).

(** * Vocabulary of the specification *)

(** ** Parameter sets *)

Definition valid_profile (g : Globals) : Prop :=
  0 < frame_width g /\ 0 < frame_depth g /\
  0 < rabbet_width g /\ 0 < rabbet_depth g /\
  rabbet_width g < frame_width g /\ rabbet_depth g < frame_depth g.

Definition valid_parameters (g : Globals) : Prop :=
  0 < painting_width g /\ 0 < painting_height g /\ valid_profile g.

(** A rabbet deeper than the decorative peak is high. *)
Definition deep_rabbet_globals : Globals := mkGlobals 200 150 40 20 8 30.

(** A rabbet wider than the molding and deeper than the peak: the outline
    is a simple closed curve around a C-shaped region. *)
Definition oversized_rabbet_globals : Globals := mkGlobals 200 150 40 20 50 30.

(** A shallow molding: valid, with a depth below the rise of the peak. *)
Definition shallow_globals : Globals := mkGlobals 200 150 40 5 8 2.

(** What Section 4.1 asks of a parameter set whose rabbet is too large. *)
Definition rejects_oversized_rabbet (g : Globals) : Prop :=
  (frame_width g <= rabbet_width g \/ frame_depth g <= rabbet_depth g) ->
  profile_builder g = Raised DegenerateProfile.

(** ** The outline *)

(** The outline of the molding as Section 4.1 lists it, with the control
    points of the decorative front taken from the script. *)
Definition listed_outline (g : Globals) : list Edge :=
  [ Line (0, 0) (frame_width g - rabbet_width g, 0);
    Line (frame_width g - rabbet_width g, 0)
         (frame_width g - rabbet_width g, rabbet_depth g);
    Line (frame_width g - rabbet_width g, rabbet_depth g)
         (frame_width g, rabbet_depth g);
    Line (frame_width g, rabbet_depth g) (frame_width g, frame_depth g);
    Bezier [ (frame_width g, frame_depth g);
             (frame_width g * 0.85, frame_depth g + 4);
             (frame_width g * 0.75, frame_depth g + 8);
             (frame_width g * 0.6, frame_depth g + 8) ];
    Bezier [ (frame_width g * 0.6, frame_depth g + 8);
             (frame_width g * 0.45, frame_depth g + 8);
             (frame_width g * 0.4, frame_depth g + 3);
             (frame_width g * 0.2, frame_depth g + 5) ];
    Bezier [ (frame_width g * 0.2, frame_depth g + 5);
             (frame_width g * 0.05, frame_depth g + 1);
             (0, frame_depth g) ];
    Line (0, frame_depth g) (0, 0) ].

(** The decorative front: the fifth, sixth and seventh edge of the outline. *)
Definition front_edges (w : list Edge) : list Edge := firstn 3 (skipn 4 w).

Definition all_cubic (es : list Edge) : Prop :=
  Forall (fun e => degree e = 3%nat) es.

(** A rectangle of the sketch plane. *)
Definition in_rect (xlo xhi ylo yhi : R) (p : Vec2) : Prop :=
  xlo <= fst p <= xhi /\ ylo <= snd p <= yhi.

(** Highest and lowest y of a wire, and the difference of the two. *)
Definition max_y (w : list Edge) (m : R) : Prop :=
  (forall p, on_wire w p -> snd p <= m) /\ (exists p, on_wire w p /\ snd p = m).

Definition min_y (w : list Edge) (m : R) : Prop :=
  (forall p, on_wire w p -> m <= snd p) /\ (exists p, on_wire w p /\ snd p = m).

Definition y_extent (w : list Edge) (e : R) : Prop :=
  exists lo hi, min_y w lo /\ max_y w hi /\ e = hi - lo.

(** The same for a solid along the depth of the molding. *)
Definition depth_extent (S : PointSet) (e : R) : Prop :=
  exists lo hi,
    (forall p, S p -> lo <= Y p <= hi) /\
    (exists p, S p /\ Y p = lo) /\ (exists p, S p /\ Y p = hi) /\
    e = hi - lo.

(** ** Bounding boxes *)

Definition in_box (lo hi p : Vector) : Prop :=
  X lo <= X p <= X hi /\ Y lo <= Y p <= Y hi /\ Z lo <= Z p <= Z hi.

(** [lo] and [hi] are the corners of the smallest axis-aligned box that
    holds the point set: the set lies inside and touches all six sides. *)
Definition bounding_box (S : PointSet) (lo hi : Vector) : Prop :=
  (forall p, S p -> in_box lo hi p) /\
  (exists p, S p /\ X p = X lo) /\ (exists p, S p /\ X p = X hi) /\
  (exists p, S p /\ Y p = Y lo) /\ (exists p, S p /\ Y p = Y hi) /\
  (exists p, S p /\ Z p = Z lo) /\ (exists p, S p /\ Z p = Z hi).

Definition bounding_box_size (S : PointSet) (size : Vector) : Prop :=
  exists lo hi, bounding_box S lo hi /\
    X hi - X lo = X size /\ Y hi - Y lo = Y size /\ Z hi - Z lo = Z size.

(** ** Miters *)

(** The cosine and the sine of 45 degrees. *)
Definition cos45 : R := 1 / sqrt 2.

(** Directions of the frame in which a side is built: the profile's width
    is along X, its depth along Y, and the side is extruded along Z. *)
Definition width_axis : Vector := mkVector 1 0 0.
Definition depth_axis : Vector := mkVector 0 1 0.
Definition extrusion_axis : Vector := mkVector 0 0 1.

(** A direction about which the orientation [o] turns: a vector other than
    the null vector that the rotation leaves in place. *)
Definition rotation_axis (o a : Vector) : Prop :=
  a <> mkVector 0 0 0 /\ rotate o a = a.

Definition perpendicular (a b : Vector) : Prop := dot a b = 0.

(** The mirror image of a point in the plane halfway along a side. *)
Definition mirror (length : R) (p : Vector) : Vector :=
  mkVector (X p) (Y p) (length - Z p).

(** The cutting box is aligned [MIN] along X, so the face that does the
    cutting is its face X = 0; at location [l] that face has the normal
    below and passes through the position of [l]. *)
Definition miter_normal (l : Location) : Vector :=
  rotate (orientation l) width_axis.

(** The side of the cutting face on which the box does not lie. *)
Definition kept_by (l : Location) (p : Vector) : Prop :=
  dot (miter_normal l) (vsub p (position l)) < 0.

(** The cutting face of a box that stands at location [l]: the image of the
    face X = 0 of [cut_box]. *)
Definition cutting_face (g : Globals) (length : R) (l : Location) : PointSet :=
  fun p => exists b, geometry (cut_box g length) b /\ X b = 0 /\
                     p = transform l b.

(** The mitered ends of a side, in the frame in which the side is built:
    where the two cutting faces meet the extruded side. *)
Definition start_miter (g : Globals) (length : R) : PointSet :=
  fun q => points (extruded_side g length) q /\
           cutting_face g length (cut_one_location g) q.

Definition end_miter (g : Globals) (length : R) : PointSet :=
  fun q => points (extruded_side g length) q /\
           cutting_face g length (cut_two_location g length) q.

(** The same ends where [locate(props["loc"])] puts them. *)
Definition placed_start (g : Globals) (props : SideProps) : PointSet :=
  fun p => exists q, start_miter g (len props) q /\ p = transform (loc props) q.

Definition placed_end (g : Globals) (props : SideProps) : PointSet :=
  fun p => exists q, end_miter g (len props) q /\ p = transform (loc props) q.

(** The seam that leaves the corner [(cx, cy)] of the frame in the
    direction [(dx, dy)]: the profile, as far up as the cutting boxes
    reach, swept along the diagonal. *)
Definition seam (g : Globals) (cx cy dx dy : R) : PointSet :=
  fun p => exists x y, in_face (profile_face g) (x, y) /\
                       y <= 2 * frame_depth g /\
                       p = mkVector (cx + dx * x) (cy + dy * x) y.

(** The square of the distance of two points. *)
Definition sq_dist (p q : Vector) : R := dot (vsub p q) (vsub p q).

(** A placement that keeps all distances. *)
Definition rigid (l : Location) : Prop :=
  forall p q, sq_dist (transform l p) (transform l q) = sq_dist p q.

(** ** Further vocabulary: extents, symmetry and overlap *)

(** Leftmost and rightmost x of a wire. *)
Definition max_x (w : list Edge) (m : R) : Prop :=
  (forall p, on_wire w p -> fst p <= m) /\ (exists p, on_wire w p /\ fst p = m).

Definition min_x (w : list Edge) (m : R) : Prop :=
  (forall p, on_wire w p -> m <= fst p) /\ (exists p, on_wire w p /\ fst p = m).

(** The mirror images of a point of the assembly in the vertical planes
    through the middle of the frame. *)
Definition reflect_x (width : R) (p : Vector) : Vector :=
  mkVector (width - X p) (Y p) (Z p).

Definition reflect_y (height : R) (p : Vector) : Vector :=
  mkVector (X p) (- height - Y p) (Z p).

(** Two point sets that share no point. *)
Definition disjoint (A B : PointSet) : Prop := forall p, ~ (A p /\ B p).

(** The opening of a frame of outer size [width] by [height]: what lies
    further than the width of the molding from all four outer edges. *)
Definition in_opening (g : Globals) (width height : R) (p : Vector) : Prop :=
  frame_width g < X p < width - frame_width g /\
  - height + frame_width g < Y p < - frame_width g.

(** The recess at the back of the frame that takes the painting: wider than
    the opening by the width of the rabbet all around, and as deep as the
    rabbet. *)
Definition in_recess (g : Globals) (width height : R) (p : Vector) : Prop :=
  frame_width g - rabbet_width g < X p
    < width - (frame_width g - rabbet_width g) /\
  - height + (frame_width g - rabbet_width g) < Y p
    < - (frame_width g - rabbet_width g) /\
  Z p < rabbet_depth g.

(** ** The boxed variant, [picture_frame.py]

    The other script cuts the frame out of one box.  Its part is modelled
    up to the point where the opening and the rabbet have been cut; the
    fillet and the chamfer that follow round edges of the front, and the
    two predicates that choose those edges are given below. *)

(** [Rectangle(width, height)], centred on the origin of its plane. *)
Definition Rectangle (width height : R) : Vec2 -> Prop :=
  fun p => within CENTER width (fst p) /\ within CENTER height (snd p).

(** [extrude(amount)] of a sketch drawn on [Plane.XY.offset(z0)]. *)
Definition extrude_sketch (z0 : R) (sketch : Vec2 -> Prop) (amount : R)
  : Shape :=
  mkShape (fun p => sketch (X p, Y p) /\
                    Rmin z0 (z0 + amount) <= Z p <= Rmax z0 (z0 + amount))
          origin_location.

(** The part of [create_picture_frame(width, height)] of [picture_frame.py]
    when the rabbet has been cut: the box, less the opening, less the
    rabbet ([mode=Mode.SUBTRACT]). *)
Definition boxed_blank (g : Globals) (width height : R) : Shape :=
  let outer_width := width + 2 * frame_width g in
  let outer_height := height + 2 * frame_width g in
  let frame := Box outer_width outer_height (frame_depth g)
                   (CENTER, CENTER, MIN) in
  let opening := Rectangle width height in
  let frame := cut frame (extrude_sketch (frame_depth g) opening
                                         (- frame_depth g)) in
  let rabbet_opening_width := width + 2 * rabbet_width g in
  let rabbet_opening_height := height + 2 * rabbet_width g in
  let rabbet := Rectangle rabbet_opening_width rabbet_opening_height in
  cut frame (extrude_sketch 0 rabbet (rabbet_depth g)).

(** The predicate that picks the edges to fillet, applied to the centre of
    an edge. *)
Definition outer_edge_filter (g : Globals) (width height : R) (c : Vector)
  : Prop :=
  Rabs (X c) > width / 2 + frame_width g / 2 - 1 \/
  Rabs (Y c) > height / 2 + frame_width g / 2 - 1.

(** The predicate that picks the edges to chamfer. *)
Definition inner_edge_filter (width height : R) (c : Vector) : Prop :=
  Rabs (X c) < width / 2 + 1 /\ Rabs (Y c) < height / 2 + 1.

(** The centres of the four edges of a centred rectangle at height [z]. *)
Definition rectangle_edge_centers (width height z : R) : list Vector :=
  [ mkVector (width / 2) 0 z; mkVector (- (width / 2)) 0 z;
    mkVector 0 (height / 2) z; mkVector 0 (- (height / 2)) z ].

(** * Properties *)

(** ** Edges *)

Section Convexity.

(** Any set of the plane that holds the segment between two of its points. *)
Variable inside : Vec2 -> Prop.

Hypothesis inside_lerp :
  forall t a b, 0 <= t <= 1 -> inside a -> inside b -> inside (lerp t a b).

Lemma casteljau_step_inside (t : R) (pts : list Vec2) :
  0 <= t <= 1 -> Forall inside pts -> Forall inside (casteljau_step t pts).
Proof.
  intros Ht H; induction H as [|a l Ha Hl IH]; simpl; [constructor|].
  destruct l as [|b l']; [constructor|].
  constructor; [|exact IH].
  apply inside_lerp; [exact Ht | exact Ha | now inversion Hl].
Qed.

Lemma casteljau_step_length (t : R) (pts : list Vec2) :
  length (casteljau_step t pts) = pred (length pts).
Proof.
  induction pts as [|a l IH]; [reflexivity|].
  destruct l as [|b l']; [reflexivity|].
  change (S (length (casteljau_step t (b :: l'))) = S (length l')).
  now rewrite IH.
Qed.

Lemma casteljau_inside (t : R) (k : nat) :
  0 <= t <= 1 ->
  forall pts, length pts = S k -> Forall inside pts ->
              inside (casteljau k t pts).
Proof.
  intros Ht; induction k as [|k IH]; intros pts Hlen Hall.
  - destruct pts as [|a l]; [discriminate|]; simpl. now inversion Hall.
  - simpl. apply IH.
    + rewrite casteljau_step_length, Hlen; reflexivity.
    + now apply casteljau_step_inside.
Qed.

(** A Bezier edge stays inside every convex set that holds its control
    points, a straight edge inside every one that holds its ends. *)
Lemma on_edge_inside (e : Edge) (p : Vec2) :
  control_points e <> [] -> Forall inside (control_points e) ->
  on_edge e p -> inside p.
Proof.
  intros Hne He [t [Ht ->]]; destruct e as [a b | pts]; simpl in *.
  - inversion He as [|? ? Ha Hb]; subst.
    apply inside_lerp; [exact Ht | exact Ha | now inversion Hb].
  - unfold bezier_at. destruct pts as [|a l]; [congruence|].
    apply casteljau_inside; [exact Ht | reflexivity | exact He].
Qed.

Lemma on_wire_inside (w : list Edge) (p : Vec2) :
  Forall (fun e => control_points e <> [] /\
                   Forall inside (control_points e)) w ->
  on_wire w p -> inside p.
Proof.
  intros Hw [e [Hin He]].
  rewrite Forall_forall in Hw.
  destruct (Hw e Hin) as [Hne Hall].
  exact (on_edge_inside e p Hne Hall He).
Qed.

End Convexity.

Lemma lerp_0 (a b : Vec2) : lerp 0 a b = a.
Proof. destruct a, b; unfold lerp; simpl; f_equal; ring. Qed.

Lemma lerp_1 (a b : Vec2) : lerp 1 a b = b.
Proof. destruct a, b; unfold lerp; simpl; f_equal; ring. Qed.

Lemma casteljau_step_0 (pts : list Vec2) :
  casteljau_step 0 pts = removelast pts.
Proof.
  induction pts as [|a l IH]; [reflexivity|].
  destruct l as [|b l']; [reflexivity|].
  change (lerp 0 a b :: casteljau_step 0 (b :: l') = a :: removelast (b :: l')).
  now rewrite IH, lerp_0.
Qed.

Lemma casteljau_step_1 (pts : list Vec2) : casteljau_step 1 pts = tl pts.
Proof.
  induction pts as [|a l IH]; [reflexivity|].
  destruct l as [|b l']; [reflexivity|].
  change (lerp 1 a b :: casteljau_step 1 (b :: l') = b :: l').
  now rewrite IH, lerp_1.
Qed.

Lemma casteljau_0 (k : nat) :
  forall pts, length pts = S k -> casteljau k 0 pts = hd (0, 0) pts.
Proof.
  induction k as [|k IH]; intros pts Hlen; [reflexivity|].
  cbn [casteljau]; rewrite IH.
  - rewrite casteljau_step_0.
    destruct pts as [|a [|b l]]; try discriminate; reflexivity.
  - rewrite casteljau_step_length, Hlen; reflexivity.
Qed.

Lemma casteljau_1 (k : nat) :
  forall pts, length pts = S k -> casteljau k 1 pts = last pts (0, 0).
Proof.
  induction k as [|k IH]; intros pts Hlen.
  - destruct pts as [|a [|b l]]; try discriminate; reflexivity.
  - cbn [casteljau]; rewrite IH.
    + rewrite casteljau_step_1.
      destruct pts as [|a [|b l]]; try discriminate; reflexivity.
    + rewrite casteljau_step_length, Hlen; reflexivity.
Qed.

Lemma bezier_start (a : Vec2) (pts : list Vec2) :
  start_point (Bezier (a :: pts)) = a.
Proof.
  unfold start_point, position_at, bezier_at.
  now rewrite casteljau_0.
Qed.

Lemma bezier_end (a : Vec2) (pts : list Vec2) :
  end_point (Bezier (a :: pts)) = last (a :: pts) (0, 0).
Proof.
  unfold end_point, position_at, bezier_at.
  now rewrite casteljau_1.
Qed.

Lemma line_start (a b : Vec2) : start_point (Line a b) = a.
Proof. apply lerp_0. Qed.

Lemma line_end (a b : Vec2) : end_point (Line a b) = b.
Proof. apply lerp_1. Qed.

(** ** The profile *)

Lemma profile_outline (g : Globals) :
  outer_wire (profile_face g) = listed_outline g.
Proof.
  unfold profile_face, outline, listed_outline, BLine, BBezier, add_edge,
    make_face, bbind, sketch_face, empty_ctx, peak_height.
  cbn [snd fst pending_edges sketch_faces app hd outer_wire].
  fold (end_point (Line (0, 0) (frame_width g - rabbet_width g, 0))).
  rewrite line_end.
  fold (end_point (Line (frame_width g - rabbet_width g, 0)
                        (frame_width g - rabbet_width g, rabbet_depth g))).
  rewrite line_end.
  fold (end_point (Line (frame_width g - rabbet_width g, rabbet_depth g)
                        (frame_width g, rabbet_depth g))).
  rewrite line_end.
  fold (end_point (Line (frame_width g, rabbet_depth g)
                        (frame_width g, frame_depth g))).
  rewrite line_end.
  repeat match goal with
         | |- context [ Bezier ?l @ 1 ] =>
             change (Bezier l @ 1) with (end_point (Bezier l));
             rewrite bezier_end; cbn [last]
         end.
  replace (frame_depth g + 8 - 5) with (frame_depth g + 3) by lra.
  reflexivity.
Qed.

Lemma in_rect_lerp (xlo xhi ylo yhi t : R) (a b : Vec2) :
  0 <= t <= 1 -> in_rect xlo xhi ylo yhi a -> in_rect xlo xhi ylo yhi b ->
  in_rect xlo xhi ylo yhi (lerp t a b).
Proof.
  unfold in_rect, lerp; simpl; intros Ht [Hax Hay] [Hbx Hby].
  split; split; nra.
Qed.

Lemma y_range_lerp (ylo yhi t : R) (a b : Vec2) :
  0 <= t <= 1 -> ylo <= snd a <= yhi -> ylo <= snd b <= yhi ->
  ylo <= snd (lerp t a b) <= yhi.
Proof. unfold lerp; simpl; intros Ht Ha Hb; split; nra. Qed.

Lemma on_wire_in_face (f : Face) (p : Vec2) :
  on_wire (outer_wire f) p -> in_face f p.
Proof.
  intros H; exists (snd p), (snd p).
  rewrite <- surjective_pairing; repeat split; try assumption; lra.
Qed.

Lemma edge_start_on_wire (w : list Edge) (e : Edge) :
  In e w -> on_wire w (start_point e).
Proof.
  intros H; exists e; split; [exact H|].
  exists 0; split; [lra|reflexivity].
Qed.

Lemma edge_end_on_wire (w : list Edge) (e : Edge) :
  In e w -> on_wire w (end_point e).
Proof.
  intros H; exists e; split; [exact H|].
  exists 1; split; [lra|reflexivity].
Qed.

(** The back outer corner and the top of the decorative peak lie on the
    outline. *)
Lemma corner_on_profile (g : Globals) :
  on_wire (outer_wire (profile_face g)) (0, 0).
Proof.
  rewrite profile_outline.
  rewrite <- (line_start (0, 0) (frame_width g - rabbet_width g, 0)).
  apply edge_start_on_wire; simpl; auto.
Qed.

Lemma peak_on_profile (g : Globals) :
  on_wire (outer_wire (profile_face g))
          (frame_width g * 0.6, frame_depth g + 8).
Proof.
  rewrite profile_outline.
  change (frame_width g * 0.6, frame_depth g + 8) with
    (last [ (frame_width g, frame_depth g);
            (frame_width g * 0.85, frame_depth g + 4);
            (frame_width g * 0.75, frame_depth g + 8);
            (frame_width g * 0.6, frame_depth g + 8) ] (0, 0)).
  rewrite <- bezier_end.
  apply edge_end_on_wire; simpl; auto 10.
Qed.

Lemma rabbet_top_on_profile (g : Globals) :
  on_wire (outer_wire (profile_face g))
          (frame_width g - rabbet_width g, rabbet_depth g).
Proof.
  rewrite profile_outline.
  rewrite <- (line_end (frame_width g - rabbet_width g, 0)
                       (frame_width g - rabbet_width g, rabbet_depth g)).
  apply edge_end_on_wire; simpl; auto.
Qed.

Lemma profile_wire_y_range (g : Globals) (p : Vec2) :
  0 <= frame_depth g -> 0 <= rabbet_depth g <= frame_depth g + 8 ->
  on_wire (outer_wire (profile_face g)) p ->
  0 <= snd p <= frame_depth g + 8.
Proof.
  intros Hfd Hrd; rewrite profile_outline.
  apply (on_wire_inside (fun q => 0 <= snd q <= frame_depth g + 8)).
  - intros t a b; apply y_range_lerp.
  - unfold listed_outline, in_rect.
    repeat (apply Forall_cons || apply Forall_nil || split);
      simpl; try discriminate; lra.
Qed.

Lemma profile_wire_in_rect (g : Globals) (p : Vec2) :
  0 <= rabbet_width g <= frame_width g ->
  0 <= frame_depth g -> 0 <= rabbet_depth g <= frame_depth g + 8 ->
  on_wire (outer_wire (profile_face g)) p ->
  in_rect 0 (frame_width g) 0 (frame_depth g + 8) p.
Proof.
  intros Hrw Hfd Hrd; rewrite profile_outline.
  apply (on_wire_inside (in_rect 0 (frame_width g) 0 (frame_depth g + 8))).
  - intros t a b; apply in_rect_lerp.
  - unfold listed_outline, in_rect.
    repeat (apply Forall_cons || apply Forall_nil || split);
      simpl; try discriminate; lra.
Qed.

Lemma profile_face_in_rect (g : Globals) (p : Vec2) :
  0 <= rabbet_width g <= frame_width g ->
  0 <= frame_depth g -> 0 <= rabbet_depth g <= frame_depth g + 8 ->
  in_face (profile_face g) p ->
  in_rect 0 (frame_width g) 0 (frame_depth g + 8) p.
Proof.
  intros Hrw Hfd Hrd (y1 & y2 & H1 & H2 & Hy).
  apply (profile_wire_in_rect g _ Hrw Hfd Hrd) in H1, H2.
  unfold in_rect in *; simpl in *. lra.
Qed.

(** ** Angles and locations *)

Lemma cos45_pos : 0 < cos45.
Proof.
  unfold cos45. apply Rdiv_lt_0_compat; [lra|].
  apply sqrt_lt_R0; lra.
Qed.

Lemma cos45_sqr : cos45 * cos45 = 1 / 2.
Proof.
  unfold cos45. pose proof sqrt2_neq_0 as Hne.
  pose proof (sqrt_sqrt 2 ltac:(lra)) as Hs.
  field_simplify_eq; [|exact Hne]. lra.
Qed.

Lemma cos45_bounds : 7 / 10 < cos45 < 1.
Proof.
  pose proof cos45_pos; pose proof cos45_sqr; split; nra.
Qed.

Lemma cos_deg_0 : cos (radians 0) = 1.
Proof.
  unfold radians; replace (0 * PI / 180) with 0 by lra.
  apply cos_0.
Qed.

Lemma sin_deg_0 : sin (radians 0) = 0.
Proof.
  unfold radians; replace (0 * PI / 180) with 0 by lra.
  apply sin_0.
Qed.

Lemma cos_deg_90 : cos (radians 90) = 0.
Proof.
  unfold radians; replace (90 * PI / 180) with (PI / 2) by lra.
  apply cos_PI2.
Qed.

Lemma sin_deg_90 : sin (radians 90) = 1.
Proof.
  unfold radians; replace (90 * PI / 180) with (PI / 2) by lra.
  apply sin_PI2.
Qed.

Lemma cos_deg_m90 : cos (radians (-90)) = 0.
Proof.
  unfold radians; replace (-90 * PI / 180) with (- (PI / 2)) by lra.
  rewrite cos_neg; apply cos_PI2.
Qed.

Lemma sin_deg_m90 : sin (radians (-90)) = -1.
Proof.
  unfold radians; replace (-90 * PI / 180) with (- (PI / 2)) by lra.
  rewrite sin_neg, sin_PI2; reflexivity.
Qed.

Lemma cos_deg_180 : cos (radians 180) = -1.
Proof.
  unfold radians; replace (180 * PI / 180) with PI by lra.
  apply cos_PI.
Qed.

Lemma sin_deg_180 : sin (radians 180) = 0.
Proof.
  unfold radians; replace (180 * PI / 180) with PI by lra.
  apply sin_PI.
Qed.

Lemma cos_deg_45 : cos (radians 45) = cos45.
Proof.
  unfold radians; replace (45 * PI / 180) with (PI / 4) by lra.
  apply cos_PI4.
Qed.

Lemma sin_deg_45 : sin (radians 45) = cos45.
Proof.
  unfold radians; replace (45 * PI / 180) with (PI / 4) by lra.
  apply sin_PI4.
Qed.

Lemma cos_deg_m45 : cos (radians (-45)) = cos45.
Proof.
  unfold radians; replace (-45 * PI / 180) with (- (PI / 4)) by lra.
  rewrite cos_neg; apply cos_PI4.
Qed.

Lemma sin_deg_m45 : sin (radians (-45)) = - cos45.
Proof.
  unfold radians; replace (-45 * PI / 180) with (- (PI / 4)) by lra.
  rewrite sin_neg, sin_PI4; reflexivity.
Qed.

Create Rewrite HintDb degrees.

#[local] Hint Rewrite cos_deg_0 sin_deg_0 cos_deg_90 sin_deg_90 cos_deg_m90
  sin_deg_m90 cos_deg_180 sin_deg_180 cos_deg_45 sin_deg_45 cos_deg_m45
  sin_deg_m45 : degrees.

Ltac transform_eq :=
  unfold transform, rotate, rot_x, rot_y, rot_z, vadd;
  cbn [X Y Z position orientation];
  autorewrite with degrees; f_equal; ring.

Lemma transform_origin (q : Vector) : transform origin_location q = q.
Proof. destruct q; unfold origin_location; transform_eq. Qed.

Lemma transform_left (width height : R) (q : Vector) :
  transform (loc (left_side width height)) q =
  mkVector (X q) (- Z q) (Y q).
Proof.
  unfold left_side, right_side, bottom_side, top_side, side_props.
  cbn [orientations nth snd loc]; transform_eq.
Qed.

Lemma transform_right (width height : R) (q : Vector) :
  transform (loc (right_side width height)) q =
  mkVector (width - X q) (Z q - height) (Y q).
Proof.
  unfold left_side, right_side, bottom_side, top_side, side_props.
  cbn [orientations nth snd loc]; transform_eq.
Qed.

Lemma transform_bottom (width height : R) (q : Vector) :
  transform (loc (bottom_side width height)) q =
  mkVector (Z q) (X q - height) (Y q).
Proof.
  unfold left_side, right_side, bottom_side, top_side, side_props.
  cbn [orientations nth snd loc]; transform_eq.
Qed.

Lemma transform_top (width height : R) (q : Vector) :
  transform (loc (top_side width height)) q =
  mkVector (width - Z q) (- X q) (Y q).
Proof.
  unfold left_side, right_side, bottom_side, top_side, side_props.
  cbn [orientations nth snd loc]; transform_eq.
Qed.

Lemma transform_cut_one (g : Globals) (q : Vector) :
  transform (cut_one_location g) q =
  mkVector ((X q + Z q) * cos45) (Y q + frame_depth g) ((Z q - X q) * cos45).
Proof. unfold cut_one_location; transform_eq. Qed.

Lemma transform_cut_two (g : Globals) (length : R) (q : Vector) :
  transform (cut_two_location g length) q =
  mkVector ((X q - Z q) * cos45) (Y q + frame_depth g)
           ((X q + Z q) * cos45 + length).
Proof. unfold cut_two_location; transform_eq. Qed.

(** ** Point sets of the shapes of the script *)

Lemma points_at_origin (s : Shape) (p : Vector) :
  location s = origin_location -> (points s p <-> geometry s p).
Proof.
  intros Hloc; unfold points; rewrite Hloc; split.
  - intros (q & Hq & ->); now rewrite transform_origin.
  - intros Hp; exists p; now rewrite transform_origin.
Qed.

Lemma points_cut (a b : Shape) (p : Vector) :
  points (cut a b) p <-> points a p /\ ~ points b p.
Proof. now rewrite points_at_origin. Qed.

Lemma points_fuse (a b : Shape) (p : Vector) :
  points (fuse a b) p <-> points a p \/ points b p.
Proof. now rewrite points_at_origin. Qed.

Lemma points_extruded_side (g : Globals) (length : R) (p : Vector) :
  0 <= length ->
  (points (extruded_side g length) p <->
   in_face (profile_face g) (X p, Y p) /\ 0 <= Z p <= length).
Proof.
  intros Hl; rewrite points_at_origin by reflexivity; simpl.
  rewrite Rmin_left, Rmax_right by exact Hl; tauto.
Qed.

Lemma cos45_twice (a : R) : 2 * a * cos45 * cos45 = a.
Proof.
  replace (2 * a * cos45 * cos45) with (2 * a * (cos45 * cos45)) by ring.
  rewrite cos45_sqr; lra.
Qed.

Lemma points_cut_one (g : Globals) (length : R) (p : Vector) :
  points (cut_one g length) p <->
  0 <= (X p - Z p) * cos45 <= length /\
  0 <= Y p <= 2 * frame_depth g /\
  - (2 * length) <= (X p + Z p) * cos45 <= 2 * length.
Proof.
  unfold points, cut_one, cut_box, locate, Box, within, align_offset.
  cbn [geometry location]; split.
  - intros (q & (Hx & Hy & Hz) & ->); rewrite transform_cut_one.
    cbn [X Y Z].
    replace (((X q + Z q) * cos45 - (Z q - X q) * cos45) * cos45)
      with (2 * X q * cos45 * cos45) by ring.
    replace (((X q + Z q) * cos45 + (Z q - X q) * cos45) * cos45)
      with (2 * Z q * cos45 * cos45) by ring.
    rewrite !cos45_twice; lra.
  - intros (Hx & Hy & Hz).
    exists (mkVector ((X p - Z p) * cos45) (Y p - frame_depth g)
                     ((X p + Z p) * cos45)).
    cbn [X Y Z]; split; [lra|].
    rewrite transform_cut_one; cbn [X Y Z]; destruct p as [x y z].
    cbn [X Y Z]; f_equal.
    + replace (((x - z) * cos45 + (x + z) * cos45) * cos45)
        with (2 * x * cos45 * cos45) by ring.
      now rewrite cos45_twice.
    + ring.
    + replace (((x + z) * cos45 - (x - z) * cos45) * cos45)
        with (2 * z * cos45 * cos45) by ring.
      now rewrite cos45_twice.
Qed.

Lemma points_cut_two (g : Globals) (length : R) (p : Vector) :
  points (cut_two g length) p <->
  0 <= (X p + Z p - length) * cos45 <= length /\
  0 <= Y p <= 2 * frame_depth g /\
  - (2 * length) <= (Z p - length - X p) * cos45 <= 2 * length.
Proof.
  unfold points, cut_two, cut_box, locate, Box, within, align_offset.
  cbn [geometry location]; split.
  - intros (q & (Hx & Hy & Hz) & ->); rewrite transform_cut_two.
    cbn [X Y Z].
    replace (((X q - Z q) * cos45 + ((X q + Z q) * cos45 + length) - length)
             * cos45)
      with (2 * X q * cos45 * cos45) by ring.
    replace (((X q + Z q) * cos45 + length - length - (X q - Z q) * cos45)
             * cos45)
      with (2 * Z q * cos45 * cos45) by ring.
    rewrite !cos45_twice; lra.
  - intros (Hx & Hy & Hz).
    exists (mkVector ((X p + Z p - length) * cos45) (Y p - frame_depth g)
                     ((Z p - length - X p) * cos45)).
    cbn [X Y Z]; split; [lra|].
    rewrite transform_cut_two; cbn [X Y Z]; destruct p as [x y z].
    cbn [X Y Z]; f_equal.
    + replace (((x + z - length) * cos45 - (z - length - x) * cos45) * cos45)
        with (2 * x * cos45 * cos45) by ring.
      now rewrite cos45_twice.
    + ring.
    + replace (((x + z - length) * cos45 + (z - length - x) * cos45) * cos45
               + length)
        with (2 * (z - length) * cos45 * cos45 + length) by ring.
      rewrite cos45_twice; ring.
Qed.

Lemma cos45_sign (a : R) :
  (0 <= a -> 0 <= a * cos45 <= a) /\ (a < 0 -> a * cos45 < 0) /\
  (a <= 0 -> a <= a * cos45 <= 0).
Proof.
  pose proof cos45_bounds as Hc; repeat split; intros; nra.
Qed.

Lemma miter_normal_cut_one (g : Globals) :
  miter_normal (cut_one_location g) = mkVector cos45 0 (- cos45).
Proof.
  unfold miter_normal, cut_one_location, width_axis, rotate, rot_x, rot_y,
    rot_z; cbn [X Y Z orientation].
  autorewrite with degrees; f_equal; ring.
Qed.

Lemma miter_normal_cut_two (g : Globals) (length : R) :
  miter_normal (cut_two_location g length) = mkVector cos45 0 cos45.
Proof.
  unfold miter_normal, cut_two_location, width_axis, rotate, rot_x, rot_y,
    rot_z; cbn [X Y Z orientation].
  autorewrite with degrees; f_equal; ring.
Qed.

Lemma kept_by_cut_one (g : Globals) (p : Vector) :
  kept_by (cut_one_location g) p <-> X p < Z p.
Proof.
  unfold kept_by; rewrite miter_normal_cut_one.
  unfold dot, vsub, cut_one_location; cbn [X Y Z position].
  pose proof cos45_bounds; split; intros; nra.
Qed.

Lemma kept_by_cut_two (g : Globals) (length : R) (p : Vector) :
  kept_by (cut_two_location g length) p <-> Z p < length - X p.
Proof.
  unfold kept_by; rewrite miter_normal_cut_two.
  unfold dot, vsub, cut_two_location; cbn [X Y Z position].
  pose proof cos45_bounds; split; intros; nra.
Qed.

(** A point of the extruded side that lies strictly between the two miter
    planes survives both cuts, whatever the size of the boxes. *)
Lemma mitered_side_member (g : Globals) (length : R) (p : Vector) :
  in_face (profile_face g) (X p, Y p) ->
  0 <= X p -> X p < Z p < length - X p ->
  points (mitered_side g length) p.
Proof.
  intros Hf Hx Hz; unfold mitered_side.
  rewrite !points_cut, points_extruded_side, points_cut_one, points_cut_two
    by lra.
  repeat split; try assumption; try lra.
  - intros [[H1 _] _]. destruct (cos45_sign (X p - Z p)) as (_ & Hneg & _); lra.
  - intros [[H1 _] _].
    destruct (cos45_sign (X p + Z p - length)) as (_ & Hneg & _); lra.
Qed.

(** When the boxes are deep enough for the molding, the mitered side is
    exactly the part of the extruded side between the two miter planes. *)
Lemma mitered_side_points (g : Globals) (length : R) (p : Vector) :
  valid_profile g -> 8 <= frame_depth g -> 2 * frame_width g <= length ->
  (points (mitered_side g length) p <->
   points (extruded_side g length) p /\
   kept_by (cut_one_location g) p /\ kept_by (cut_two_location g length) p).
Proof.
  intros (Hfw & Hfd & Hrw & Hrd & Hrw' & Hrd') Hdeep Hlen.
  rewrite kept_by_cut_one, kept_by_cut_two.
  unfold mitered_side.
  rewrite !points_cut, points_extruded_side, points_cut_one, points_cut_two
    by lra.
  split.
  - intros [[[Hf Hz] Hn1] Hn2].
    pose proof (profile_face_in_rect g _ ltac:(lra) ltac:(lra) ltac:(lra) Hf)
      as [Hx Hy]; cbn [fst snd] in Hx, Hy.
    repeat split; try assumption; try lra.
    + destruct (Rlt_le_dec (X p) (Z p)) as [Hlt | Hge]; [exact Hlt|].
      exfalso; apply Hn1.
      destruct (cos45_sign (X p - Z p)) as (Hp & _ & _).
      destruct (cos45_sign (X p + Z p)) as (Hq & _ & _).
      lra.
    + destruct (Rlt_le_dec (Z p) (length - X p)) as [Hlt | Hge]; [exact Hlt|].
      exfalso; apply Hn2.
      destruct (cos45_sign (X p + Z p - length)) as (Hp & _ & _).
      destruct (cos45_sign (Z p - length - X p)) as (_ & _ & Hq).
      lra.
  - intros [[Hf Hz] [H1 H2]].
    repeat split; try assumption; try lra.
    + intros [[Hc _] _].
      destruct (cos45_sign (X p - Z p)) as (_ & Hneg & _); lra.
    + intros [[Hc _] _].
      destruct (cos45_sign (X p + Z p - length)) as (_ & Hneg & _); lra.
Qed.

(** ** The store *)

Ltac run_script :=
  cbv beta iota zeta delta
    [build_side create_frame_profile extrude_obj Box_obj locate_obj cut_obj
     add_obj load_face load_shape face_at shape_at alloc store read_globals
     bind ret globals heap next_ref fst snd Nat.add].

Ltac resolve_refs :=
  repeat (rewrite Nat.eqb_refl ||
          (rewrite (proj2 (Nat.eqb_neq _ _)) by lia)).

(** One turn of the loop allocates six objects, the first of them a new
    profile face, and leaves every object that existed before as it was. *)
Lemma build_side_spec (props : SideProps) (w : World) :
  let side := fst (build_side props w) in
  let w' := snd (build_side props w) in
  side = (5 + next_ref w)%nat /\
  next_ref w' = (6 + next_ref w)%nat /\
  globals w' = globals w /\
  (forall r, (r < next_ref w)%nat -> heap w' r = heap w r) /\
  heap w' (next_ref w) = Some (OFace (profile_face (globals w))) /\
  heap w' side = Some (OShape (placed_side (globals w) props)).
Proof.
  destruct w as [g h n]; run_script.
  repeat split.
  - intros r Hr; resolve_refs; reflexivity.
  - resolve_refs; reflexivity.
  - resolve_refs; reflexivity.
Qed.

Lemma side_refs_shift (n k : nat) :
  map (fun i => (5 + 6 * i + n)%nat) (seq 0 (S k)) =
  (5 + n)%nat :: map (fun i => (5 + 6 * i + (6 + n))%nat) (seq 0 k).
Proof.
  cbn [seq map]; f_equal.
  rewrite <- seq_shift, map_map.
  apply map_ext; intros i; lia.
Qed.

Lemma for_each_side_spec (items : list (string * SideProps)) :
  forall (sides : list ref) (w : World),
    let res := for_each_side items sides w in
    fst res = sides ++ map (fun i => (5 + 6 * i + next_ref w)%nat)
                           (seq 0 (length items)) /\
    next_ref (snd res) = (6 * length items + next_ref w)%nat /\
    globals (snd res) = globals w /\
    (forall r, (r < next_ref w)%nat -> heap (snd res) r = heap w r) /\
    (forall i, (i < length items)%nat ->
       heap (snd res) (6 * i + next_ref w)%nat =
         Some (OFace (profile_face (globals w))) /\
       heap (snd res) (5 + 6 * i + next_ref w)%nat =
         Some (OShape (placed_side (globals w)
                 (snd (nth i items
                         (""%string, mkSideProps origin_location 0)))))).
Proof.
  induction items as [|[name props] rest IH]; intros sides w.
  - cbn [for_each_side ret fst snd length seq map].
    rewrite app_nil_r.
    split; [|split; [|split; [|split]]]; try reflexivity.
    intros i Hi; inversion Hi.
  - cbn [for_each_side]; unfold bind.
    pose proof (build_side_spec props w) as Hside.
    destruct (build_side props w) as [side w1]; cbn [fst snd] in Hside.
    destruct Hside as (Hr & Hn & Hg & Hold & Hface & Hshape).
    specialize (IH (sides ++ [side]) w1); cbn zeta in IH.
    destruct IH as (Ir & In' & Ig & Iold & Inew).
    cbn zeta; split; [|split; [|split; [|split; [|intros i Hi; split]]]].
    + rewrite Ir, <- app_assoc, Hn, Hr.
      cbn [length]; rewrite side_refs_shift; reflexivity.
    + rewrite In', Hn; cbn [length]; lia.
    + now rewrite Ig.
    + intros r Hlt; rewrite Iold by lia; now apply Hold.
    + destruct i as [|j].
      * rewrite Iold by (cbn; lia); exact Hface.
      * replace (6 * S j + next_ref w)%nat with (6 * j + next_ref w1)%nat
          by lia.
        rewrite <- Hg; apply Inew; cbn [length] in Hi; lia.
    + destruct i as [|j].
      * rewrite Iold by (cbn; lia).
        replace (5 + 6 * 0 + next_ref w)%nat with side by lia.
        exact Hshape.
      * replace (5 + 6 * S j + next_ref w)%nat
          with (5 + 6 * j + next_ref w1)%nat by lia.
        rewrite <- Hg; cbn [nth]; apply Inew; cbn [length] in Hi; lia.
Qed.

Lemma add_obj_spec (a b : ref) (w : World) :
  let res := add_obj a b w in
  fst res = next_ref w /\
  next_ref (snd res) = S (next_ref w) /\
  globals (snd res) = globals w /\
  (forall r, (r < next_ref w)%nat -> heap (snd res) r = heap w r) /\
  heap (snd res) (next_ref w) =
    Some (OShape (fuse (shape_at w a) (shape_at w b))).
Proof.
  destruct w as [g h n]; run_script; repeat split.
  - intros r Hr; resolve_refs; reflexivity.
  - resolve_refs; reflexivity.
Qed.

Lemma shape_at_heap (w : World) (r : ref) (s : Shape) :
  heap w r = Some (OShape s) -> shape_at w r = s.
Proof. unfold shape_at; now intros ->. Qed.

(** The whole function: four turns of the loop and three unions. *)
Lemma create_picture_frame_spec (width height : R) (w : World) :
  let res := create_picture_frame width height w in
  fst res = (26 + next_ref w)%nat /\
  next_ref (snd res) = (27 + next_ref w)%nat /\
  globals (snd res) = globals w /\
  (forall r, (r < next_ref w)%nat -> heap (snd res) r = heap w r) /\
  (forall i, (i < 4)%nat ->
     heap (snd res) (6 * i + next_ref w)%nat =
       Some (OFace (profile_face (globals w))) /\
     heap (snd res) (5 + 6 * i + next_ref w)%nat =
       Some (OShape (placed_side (globals w) (side_props width height i)))) /\
  heap (snd res) (fst res) =
    Some (OShape (frame_solid (globals w) width height)).
Proof.
  unfold create_picture_frame, bind.
  pose proof (for_each_side_spec (orientations width height) [] w) as Hloop.
  destruct (for_each_side (orientations width height) [] w) as [sides w1].
  cbn zeta in Hloop; cbn [fst snd] in Hloop.
  destruct Hloop as (Hs & Hn & Hg & Hold & Hnew).
  change (length (orientations width height)) with 4%nat in *.
  cbn [app seq map] in Hs; subst sides; cbn [nth].
  assert (Hside : forall i, (i < 4)%nat ->
            shape_at w1 (5 + 6 * i + next_ref w)%nat =
            placed_side (globals w) (side_props width height i)).
  { intros i Hi; apply shape_at_heap; apply (Hnew i Hi). }
  pose proof (add_obj_spec (5 + 6 * 0 + next_ref w)%nat
                (5 + 6 * 1 + next_ref w)%nat w1)
    as H01.
  destruct (add_obj (5 + 6 * 0 + next_ref w)%nat
              (5 + 6 * 1 + next_ref w)%nat w1)
    as [s01 w2].
  cbn zeta in H01; cbn [fst snd] in H01.
  destruct H01 as (Hr2 & Hn2 & Hg2 & Hold2 & Hnew2).
  rewrite (Hside 0%nat), (Hside 1%nat) in Hnew2 by lia.
  pose proof (add_obj_spec s01 (5 + 6 * 2 + next_ref w)%nat w2) as H012.
  destruct (add_obj s01 (5 + 6 * 2 + next_ref w)%nat w2) as [s012 w3].
  cbn zeta in H012; cbn [fst snd] in H012.
  destruct H012 as (Hr3 & Hn3 & Hg3 & Hold3 & Hnew3).
  assert (Hs01 : shape_at w2 s01 =
                 fuse (placed_side (globals w) (side_props width height 0))
                      (placed_side (globals w) (side_props width height 1))).
  { apply shape_at_heap; rewrite Hr2; exact Hnew2. }
  assert (Hs2 : shape_at w2 (5 + 6 * 2 + next_ref w)%nat =
                placed_side (globals w) (side_props width height 2)).
  { apply shape_at_heap; rewrite Hold2 by lia; apply (Hnew 2%nat); lia. }
  rewrite Hs01, Hs2 in Hnew3.
  pose proof (add_obj_spec s012 (5 + 6 * 3 + next_ref w)%nat w3) as Hall.
  destruct (add_obj s012 (5 + 6 * 3 + next_ref w)%nat w3) as [frame w4].
  cbn zeta in Hall; cbn [fst snd] in Hall.
  destruct Hall as (Hr4 & Hn4 & Hg4 & Hold4 & Hnew4).
  assert (Hs012 : shape_at w3 s012 =
                  fuse (fuse (placed_side (globals w)
                                (side_props width height 0))
                             (placed_side (globals w)
                                (side_props width height 1)))
                       (placed_side (globals w) (side_props width height 2))).
  { apply shape_at_heap; rewrite Hr3; exact Hnew3. }
  assert (Hs3 : shape_at w3 (5 + 6 * 3 + next_ref w)%nat =
                placed_side (globals w) (side_props width height 3)).
  { apply shape_at_heap; rewrite Hold3, Hold2 by lia; apply (Hnew 3%nat); lia. }
  rewrite Hs012, Hs3 in Hnew4.
  cbn zeta; cbn [fst snd].
  split; [lia|]. split; [lia|]. split; [congruence|].
  split; [intros r Hr; rewrite Hold4, Hold3, Hold2 by lia; now apply Hold|].
  split.
  - intros i Hi; rewrite !Hold4, !Hold3, !Hold2 by lia.
    apply (Hnew i Hi).
  - rewrite Hr4; exact Hnew4.
Qed.

(** * The claims *)

(** ** Profile *)

Lemma profile_outline_closed_wire (g : Globals) :
  closed_wire (outer_wire (profile_face g)).
Proof.
  rewrite profile_outline.
  unfold closed_wire, listed_outline; cbn [chained last hd].
  rewrite !line_end, !line_start, !bezier_end, !bezier_start; cbn [last].
  repeat split.
Qed.






Lemma profile_builder_returns (g : Globals) :
  profile_builder g = Returned (profile_face g).
Proof. reflexivity. Qed.




(** ** Miter cuts *)


Lemma valid_shallow : valid_parameters shallow_globals.
Proof. unfold valid_parameters, valid_profile; simpl; repeat split; lra. Qed.

(** C4 does not hold of the script.  For the valid parameter set
    [shallow_globals] (frame_depth = 5) the cutting boxes reach up to
    y = 2 * frame_depth = 10 only, while the molding rises to
    frame_depth + 8 = 13: the point (24, 13, 1) of the extruded side lies on
    the side of the start miter plane that the cut should remove, lies
    outside the first cutting box, and is still a point of the mitered
    side. *)
Theorem shallow_molding_not_cut_through :
  let g := shallow_globals in
  let length := default_width g in
  let q := mkVector 24 13 1 in
  valid_parameters g /\
  (forall p, points (cut_one g length) p -> Y p <= 10) /\
  points (extruded_side g length) q /\
  ~ kept_by (cut_one_location g) q /\
  ~ points (cut_one g length) q /\
  points (mitered_side g length) q.
Proof.
  cbv zeta.
  assert (Hq : points (extruded_side shallow_globals
                         (default_width shallow_globals))
                      (mkVector 24 13 1)).
  { apply points_extruded_side; [unfold default_width; simpl; lra|].
    cbn [X Y Z]; split; [|unfold default_width; simpl; lra].
    apply on_wire_in_face.
    replace (24, 13) with (frame_width shallow_globals * 0.6,
                           frame_depth shallow_globals + 8)
      by (simpl; f_equal; lra).
    apply peak_on_profile. }
  assert (Hout : ~ points (cut_one shallow_globals
                             (default_width shallow_globals))
                          (mkVector 24 13 1)).
  { rewrite points_cut_one; cbn [X Y Z]; simpl; lra. }
  split; [exact valid_shallow|]; split; [|split; [exact Hq|split; [|split]]].
  - intros p Hp; apply points_cut_one in Hp; simpl in Hp; lra.
  - rewrite kept_by_cut_one; cbn [X Y Z]; lra.
  - exact Hout.
  - unfold mitered_side; rewrite !points_cut; repeat split;
      [exact Hq | exact Hout |].
    rewrite points_cut_two; cbn [X Y Z]; unfold default_width; simpl.
    intros [[H _] _].
    destruct (cos45_sign (24 + 1 - (200 + 2 * 40))) as (_ & Hneg & _); lra.
Qed.

Lemma rotate_cut_one (g : Globals) (v : Vector) :
  rotate (orientation (cut_one_location g)) v = rot_y (radians 45) v.
Proof.
  destruct v; unfold cut_one_location, rotate, rot_x, rot_y, rot_z.
  cbn [X Y Z orientation]; autorewrite with degrees; f_equal; ring.
Qed.

Lemma rotate_cut_two (g : Globals) (length : R) (v : Vector) :
  rotate (orientation (cut_two_location g length)) v =
  rot_y (radians (-45)) v.
Proof.
  destruct v; unfold cut_two_location, rotate, rot_x, rot_y, rot_z.
  cbn [X Y Z orientation]; autorewrite with degrees; f_equal; ring.
Qed.

Lemma rot_y_depth_axis (a : R) : rot_y a depth_axis = depth_axis.
Proof. unfold rot_y, depth_axis; cbn [X Y Z]; f_equal; ring. Qed.

Lemma depth_axis_not_null : depth_axis <> mkVector 0 0 0.
Proof. unfold depth_axis; intros H; injection H; lra. Qed.

(** The second cutting box is the mirror image of the first in the plane
    halfway along the side. *)
Lemma cut_two_mirrors_cut_one (g : Globals) (length : R) (p : Vector) :
  points (cut_two g length) p <-> points (cut_one g length) (mirror length p).
Proof.
  rewrite points_cut_one, points_cut_two; unfold mirror; cbn [X Y Z].
  replace ((X p - (length - Z p)) * cos45)
    with ((X p + Z p - length) * cos45) by ring.
  replace ((X p + (length - Z p)) * cos45)
    with (- ((Z p - length - X p) * cos45)) by ring.
  split; intros (H1 & H2 & H3); repeat split; lra.
Qed.

(** C3, as stated, fails: no direction perpendicular to both the extrusion
    direction and the depth direction of the profile is left in place by
    the rotation of the first cutting box. *)
Lemma miter_axis_not_across_width :
  ~ exists a,
      rotation_axis (orientation (cut_one_location script_globals)) a /\
      perpendicular a extrusion_axis /\ perpendicular a depth_axis.
Proof.
  intros ([ax ay az] & [Hnz Hfix] & Hz & Hy).
  unfold perpendicular, dot, extrusion_axis, depth_axis in Hz, Hy.
  cbn [X Y Z] in Hz, Hy.
  rewrite rotate_cut_one in Hfix; unfold rot_y in Hfix; cbn [X Y Z] in Hfix.
  rewrite cos_deg_45, sin_deg_45 in Hfix.
  injection Hfix; intros.
  pose proof cos45_bounds as Hc.
  assert (az = 0) by lra; assert (ay = 0) by lra; subst az ay.
  assert (ax = 0) by nra; subst ax.
  now apply Hnz.
Qed.

(** C3, amended: the first cutting box is turned by +45 degrees and the
    second by -45 degrees about the depth direction of the profile, which
    is perpendicular to the extrusion direction and to the width direction;
    the first is anchored in the plane where the extrusion starts and the
    second at distance L along the extrusion axis, where it is the mirror
    image of the first.
    For every valid profile with frame_depth >= 8 and every side length
    L >= 2 * frame_width the mitered side is the part of the extruded side
    between the two cutting planes, which have unit normals at 45 degrees
    to the extrusion axis. *)
Theorem miter_cuts_at_45_degrees (g : Globals) (length : R) :
  valid_profile g -> 8 <= frame_depth g -> 2 * frame_width g <= length ->
  (forall v, rotate (orientation (cut_one_location g)) v
             = rot_y (radians 45) v) /\
  (forall v, rotate (orientation (cut_two_location g length)) v
             = rot_y (radians (-45)) v) /\
  rotation_axis (orientation (cut_one_location g)) depth_axis /\
  rotation_axis (orientation (cut_two_location g length)) depth_axis /\
  perpendicular depth_axis extrusion_axis /\
  perpendicular depth_axis width_axis /\
  dot (position (cut_one_location g)) extrusion_axis = 0 /\
  dot (position (cut_two_location g length)) extrusion_axis = length /\
  (forall p, points (cut_two g length) p <->
             points (cut_one g length) (mirror length p)) /\
  (forall p, points (mitered_side g length) p <->
             points (extruded_side g length) p /\
             kept_by (cut_one_location g) p /\
             kept_by (cut_two_location g length) p) /\
  dot (miter_normal (cut_one_location g)) (miter_normal (cut_one_location g))
    = 1 /\
  dot (miter_normal (cut_two_location g length))
      (miter_normal (cut_two_location g length)) = 1 /\
  Rabs (dot (miter_normal (cut_one_location g)) extrusion_axis)
    = cos (radians 45) /\
  Rabs (dot (miter_normal (cut_two_location g length)) extrusion_axis)
    = cos (radians 45).
Proof.
  intros Hv Hdeep Hlen.
  pose proof cos45_bounds as Hc; pose proof cos45_sqr as Hs.
  split; [apply rotate_cut_one|]; split; [apply rotate_cut_two|].
  split; [split; [apply depth_axis_not_null |
                  rewrite rotate_cut_one; apply rot_y_depth_axis]|].
  split; [split; [apply depth_axis_not_null |
                  rewrite rotate_cut_two; apply rot_y_depth_axis]|].
  split; [unfold perpendicular, dot, depth_axis, extrusion_axis;
          cbn [X Y Z]; ring|].
  split; [unfold perpendicular, dot, depth_axis, width_axis;
          cbn [X Y Z]; ring|].
  split; [unfold dot, cut_one_location, extrusion_axis;
          cbn [X Y Z position]; ring|].
  split; [unfold dot, cut_two_location, extrusion_axis;
          cbn [X Y Z position]; ring|].
  split; [apply cut_two_mirrors_cut_one|].
  split; [intros p; now apply mitered_side_points|].
  rewrite miter_normal_cut_one, miter_normal_cut_two, cos_deg_45.
  unfold dot, extrusion_axis; cbn [X Y Z].
  split; [nra|]; split; [nra|]; split.
  - replace (cos45 * 0 + 0 * 0 + - cos45 * 1) with (- cos45) by ring.
    rewrite Rabs_Ropp; apply Rabs_pos_eq; lra.
  - replace (cos45 * 0 + 0 * 0 + cos45 * 1) with cos45 by ring.
    apply Rabs_pos_eq; lra.
Qed.

Lemma valid_script : valid_parameters script_globals.
Proof. unfold valid_parameters, valid_profile; simpl; repeat split; lra. Qed.

Lemma miter_cuts_at_45_degrees_script :
  (valid_profile script_globals /\ 8 <= frame_depth script_globals /\
   2 * frame_width script_globals <= 280) /\
  forall p, points (mitered_side script_globals 280) p <->
            points (extruded_side script_globals 280) p /\
            kept_by (cut_one_location script_globals) p /\
            kept_by (cut_two_location script_globals 280) p.
Proof.
  assert (H1 : valid_profile script_globals) by apply valid_script.
  assert (H2 : 8 <= frame_depth script_globals) by (simpl; lra).
  assert (H3 : 2 * frame_width script_globals <= 280) by (simpl; lra).
  split; [split; [exact H1 | split; [exact H2 | exact H3]]|].
  apply (miter_cuts_at_45_degrees script_globals 280 H1 H2 H3).
Defined.

(** ** Placement of the sides *)

Section Miters.

Variable g : Globals.
Variable length : R.

Hypothesis valid : valid_profile g.
Hypothesis long_enough : frame_width g <= length.

Lemma profile_face_bounds (x y : R) :
  in_face (profile_face g) (x, y) ->
  0 <= x <= frame_width g /\ 0 <= y <= frame_depth g + 8.
Proof.
  destruct valid as (Hfw & Hfd & Hrw & Hrd & Hrw' & Hrd'); intros Hf.
  exact (profile_face_in_rect g (x, y) ltac:(lra) ltac:(lra) ltac:(lra) Hf).
Qed.

Lemma start_miter_points (q : Vector) :
  start_miter g length q <->
  in_face (profile_face g) (X q, Y q) /\ Z q = X q /\
  Y q <= 2 * frame_depth g.
Proof.
  pose proof cos45_bounds as Hc.
  destruct valid as (Hfw & Hfd & _).
  unfold start_miter, cutting_face, cut_box, Box, within, align_offset.
  cbn [geometry]; rewrite points_extruded_side by lra; split.
  - intros [[Hf Hz] (b & (_ & Hy & _) & Hx0 & ->)].
    rewrite transform_cut_one in *; cbn [X Y Z] in *; rewrite Hx0 in *.
    repeat split; [exact Hf | ring | lra].
  - intros (Hf & Hz & Hy).
    destruct (profile_face_bounds _ _ Hf) as [Hx Hy'].
    destruct (cos45_sign (X q)) as (Hs & _ & _).
    split; [split; [exact Hf | lra]|].
    exists (mkVector 0 (Y q - frame_depth g) (2 * X q * cos45)).
    cbn [X Y Z]; split; [|split; [reflexivity|]].
    + repeat split; lra.
    + rewrite transform_cut_one; destruct q as [x y z]; cbn [X Y Z] in *.
      subst z; f_equal.
      * replace ((0 + 2 * x * cos45) * cos45) with (2 * x * cos45 * cos45)
          by ring.
        now rewrite cos45_twice.
      * ring.
      * replace ((2 * x * cos45 - 0) * cos45) with (2 * x * cos45 * cos45)
          by ring.
        now rewrite cos45_twice.
Qed.

Lemma end_miter_points (q : Vector) :
  end_miter g length q <->
  in_face (profile_face g) (X q, Y q) /\ Z q = length - X q /\
  Y q <= 2 * frame_depth g.
Proof.
  pose proof cos45_bounds as Hc.
  destruct valid as (Hfw & Hfd & _).
  unfold end_miter, cutting_face, cut_box, Box, within, align_offset.
  cbn [geometry]; rewrite points_extruded_side by lra; split.
  - intros [[Hf Hz] (b & (_ & Hy & _) & Hx0 & ->)].
    rewrite transform_cut_two in *; cbn [X Y Z] in *; rewrite Hx0 in *.
    repeat split; [exact Hf | ring | lra].
  - intros (Hf & Hz & Hy).
    destruct (profile_face_bounds _ _ Hf) as [Hx Hy'].
    destruct (cos45_sign (X q)) as (Hs & _ & _).
    split; [split; [exact Hf | lra]|].
    exists (mkVector 0 (Y q - frame_depth g) (- (2 * X q * cos45))).
    cbn [X Y Z]; split; [|split; [reflexivity|]].
    + repeat split; lra.
    + rewrite transform_cut_two; destruct q as [x y z]; cbn [X Y Z] in *.
      subst z; f_equal.
      * replace ((0 - - (2 * x * cos45)) * cos45)
          with (2 * x * cos45 * cos45) by ring.
        now rewrite cos45_twice.
      * ring.
      * replace ((0 + - (2 * x * cos45)) * cos45 + length)
          with (length - 2 * x * cos45 * cos45) by ring.
        now rewrite cos45_twice.
Qed.

End Miters.

(** Each mitered end, once placed, is the seam of one corner of the frame.
    [zf] gives the place along the side of the point of the end that lies
    at [x] across the molding. *)
Ltac seam_proof miter_points transform_side length zf :=
  let Hv := fresh "Hv" in
  let Hl := fresh "Hl" in
  intros Hv Hl; unfold placed_start, placed_end, seam;
  change (len (_ _ _)) with length; split;
  [ intros (q & Hq & ->);
    apply (miter_points _ length Hv Hl) in Hq;
    destruct Hq as (Hf & Hz & Hy);
    exists (X q), (Y q); rewrite transform_side, Hz;
    repeat split; try assumption; f_equal; ring
  | intros (x & y & Hf & Hy & ->);
    exists (mkVector x y (zf x)); split;
    [ apply (miter_points _ length Hv Hl); cbn [X Y Z];
      repeat split; assumption
    | rewrite transform_side; cbn [X Y Z]; f_equal; ring ] ].

Lemma left_start_seam (g : Globals) (width height : R) (p : Vector) :
  valid_profile g -> frame_width g <= height ->
  (placed_start g (left_side width height) p <->
   seam g 0 0 1 (-1) p).
Proof.
  seam_proof start_miter_points transform_left height
    (fun x : R => x).
Qed.

Lemma top_end_seam (g : Globals) (width height : R) (p : Vector) :
  valid_profile g -> frame_width g <= width ->
  (placed_end g (top_side width height) p <->
   seam g 0 0 1 (-1) p).
Proof.
  seam_proof end_miter_points transform_top width
    (fun x : R => width - x).
Qed.

Lemma left_end_seam (g : Globals) (width height : R) (p : Vector) :
  valid_profile g -> frame_width g <= height ->
  (placed_end g (left_side width height) p <->
   seam g 0 (- height) 1 1 p).
Proof.
  seam_proof end_miter_points transform_left height
    (fun x : R => height - x).
Qed.

Lemma bottom_start_seam (g : Globals) (width height : R) (p : Vector) :
  valid_profile g -> frame_width g <= width ->
  (placed_start g (bottom_side width height) p <->
   seam g 0 (- height) 1 1 p).
Proof.
  seam_proof start_miter_points transform_bottom width
    (fun x : R => x).
Qed.

Lemma bottom_end_seam (g : Globals) (width height : R) (p : Vector) :
  valid_profile g -> frame_width g <= width ->
  (placed_end g (bottom_side width height) p <->
   seam g width (- height) (-1) 1 p).
Proof.
  seam_proof end_miter_points transform_bottom width
    (fun x : R => width - x).
Qed.

Lemma right_start_seam (g : Globals) (width height : R) (p : Vector) :
  valid_profile g -> frame_width g <= height ->
  (placed_start g (right_side width height) p <->
   seam g width (- height) (-1) 1 p).
Proof.
  seam_proof start_miter_points transform_right height
    (fun x : R => x).
Qed.

Lemma right_end_seam (g : Globals) (width height : R) (p : Vector) :
  valid_profile g -> frame_width g <= height ->
  (placed_end g (right_side width height) p <->
   seam g width 0 (-1) (-1) p).
Proof.
  seam_proof end_miter_points transform_right height
    (fun x : R => height - x).
Qed.

Lemma top_start_seam (g : Globals) (width height : R) (p : Vector) :
  valid_profile g -> frame_width g <= width ->
  (placed_start g (top_side width height) p <->
   seam g width 0 (-1) (-1) p).
Proof.
  seam_proof start_miter_points transform_top width
    (fun x : R => x).
Qed.

Lemma sides_rigid (width height : R) :
  rigid (loc (left_side width height)) /\
  rigid (loc (right_side width height)) /\
  rigid (loc (bottom_side width height)) /\
  rigid (loc (top_side width height)).
Proof.
  unfold rigid, sq_dist; repeat split; intros p q;
    rewrite ?transform_left, ?transform_right, ?transform_bottom,
      ?transform_top;
    unfold dot, vsub; cbn [X Y Z]; ring.
Qed.



(** ** The assembled frame *)

Lemma frame_of_solid (w : World) :
  frame_of w = frame_solid (globals w) (default_width (globals w))
                           (default_height (globals w)).
Proof.
  unfold frame_of, main, bind, read_globals.
  pose proof (create_picture_frame_spec (default_width (globals w))
                (default_height (globals w)) w) as Hrun.
  destruct (create_picture_frame (default_width (globals w))
              (default_height (globals w)) w) as [frame w'].
  cbn zeta in Hrun; cbn [fst snd] in Hrun.
  apply shape_at_heap, Hrun.
Qed.

Lemma placed_side_points (g : Globals) (props : SideProps) (p : Vector) :
  points (placed_side g props) p <->
  exists q, points (mitered_side g (len props)) q /\
            p = transform (loc props) q.
Proof.
  unfold placed_side, locate, points at 1; cbn [geometry location].
  split; intros (q & Hq & ->); exists q; (split; [|reflexivity]).
  - now apply points_at_origin.
  - now apply points_at_origin in Hq.
Qed.

Lemma mitered_side_in_extruded (g : Globals) (length : R) (q : Vector) :
  points (mitered_side g length) q -> points (extruded_side g length) q.
Proof. unfold mitered_side; rewrite !points_cut; tauto. Qed.

Lemma mitered_side_bounds (g : Globals) (length : R) (q : Vector) :
  valid_profile g -> 0 <= length ->
  points (mitered_side g length) q ->
  0 <= X q <= frame_width g /\ 0 <= Y q <= frame_depth g + 8 /\
  0 <= Z q <= length.
Proof.
  intros Hv Hl Hq; apply mitered_side_in_extruded in Hq.
  apply points_extruded_side in Hq; [|exact Hl]; destruct Hq as [Hf Hz].
  destruct Hv as (Hfw & Hfd & Hrw & Hrd & Hrw' & Hrd').
  pose proof (profile_face_in_rect g _ ltac:(lra) ltac:(lra) ltac:(lra) Hf)
    as [Hx Hy]; cbn [fst snd] in Hx, Hy.
  repeat split; lra.
Qed.

(** The middle of the outer back edge and of the decorative peak of a side
    are points of the mitered side. *)
Lemma mitered_side_back_edge (g : Globals) (length : R) :
  0 < length ->
  points (mitered_side g length) (mkVector 0 0 (length / 2)).
Proof.
  intros Hl; apply mitered_side_member; cbn [X Y Z]; try lra.
  apply on_wire_in_face, corner_on_profile.
Qed.

Lemma mitered_side_peak (g : Globals) (length : R) :
  0 < frame_width g -> 2 * frame_width g <= length ->
  points (mitered_side g length)
         (mkVector (frame_width g * 0.6) (frame_depth g + 8) (length / 2)).
Proof.
  intros Hfw Hl; apply mitered_side_member; cbn [X Y Z]; try lra.
  apply on_wire_in_face, peak_on_profile.
Qed.

Lemma frame_solid_points (g : Globals) (width height : R) (p : Vector) :
  points (frame_solid g width height) p <->
  exists i, (i < 4)%nat /\ points (placed_side g (side_props width height i)) p.
Proof.
  unfold frame_solid; rewrite !points_fuse; split.
  - intros [[[H | H] | H] | H];
      [exists 0%nat | exists 1%nat | exists 2%nat | exists 3%nat];
      (split; [lia | exact H]).
  - intros (i & Hi & H).
    destruct i as [|[|[|[|i]]]]; try lia; tauto.
Qed.

Lemma frame_solid_bounding_box (g : Globals) (width height : R) :
  valid_profile g ->
  2 * frame_width g <= width -> 2 * frame_width g <= height ->
  bounding_box (points (frame_solid g width height))
               (mkVector 0 (- height) 0)
               (mkVector width 0 (frame_depth g + 8)).
Proof.
  intros Hv Hw Hh.
  assert (Hfw : 0 < frame_width g) by apply Hv.
  unfold bounding_box, in_box; cbn [X Y Z].
  split; [|split; [|split; [|split; [|split; [|split]]]]].
  - intros p Hp; apply frame_solid_points in Hp.
    destruct Hp as (i & Hi & Hp); apply placed_side_points in Hp.
    destruct Hp as (q & Hq & ->).
    destruct i as [|[|[|[|i]]]]; try lia.
    + apply (mitered_side_bounds g) in Hq; [|exact Hv|cbn; lra].
      change (side_props width height 0) with (left_side width height).
      rewrite transform_left.
      cbn [X Y Z len side_props orientations nth snd] in *.
      lra.
    + apply (mitered_side_bounds g) in Hq; [|exact Hv|cbn; lra].
      change (side_props width height 1) with (right_side width height).
      rewrite transform_right.
      cbn [X Y Z len side_props orientations nth snd] in *.
      lra.
    + apply (mitered_side_bounds g) in Hq; [|exact Hv|cbn; lra].
      change (side_props width height 2) with (bottom_side width height).
      rewrite transform_bottom.
      cbn [X Y Z len side_props orientations nth snd] in *.
      lra.
    + apply (mitered_side_bounds g) in Hq; [|exact Hv|cbn; lra].
      change (side_props width height 3) with (top_side width height).
      rewrite transform_top.
      cbn [X Y Z len side_props orientations nth snd] in *.
      lra.
  - exists (transform (loc (left_side width height))
                      (mkVector 0 0 (height / 2))); split.
    + apply frame_solid_points; exists 0%nat; split; [lia|].
      apply placed_side_points; eexists; split; [|reflexivity].
      apply mitered_side_back_edge; lra.
    + rewrite transform_left; reflexivity.
  - exists (transform (loc (right_side width height))
                      (mkVector 0 0 (height / 2))); split.
    + apply frame_solid_points; exists 1%nat; split; [lia|].
      apply placed_side_points; eexists; split; [|reflexivity].
      apply mitered_side_back_edge; lra.
    + rewrite transform_right; cbn [X]; ring.
  - exists (transform (loc (bottom_side width height))
                      (mkVector 0 0 (width / 2))); split.
    + apply frame_solid_points; exists 2%nat; split; [lia|].
      apply placed_side_points; eexists; split; [|reflexivity].
      apply mitered_side_back_edge; lra.
    + rewrite transform_bottom; cbn [X Y]; ring.
  - exists (transform (loc (top_side width height))
                      (mkVector 0 0 (width / 2))); split.
    + apply frame_solid_points; exists 3%nat; split; [lia|].
      apply placed_side_points; eexists; split; [|reflexivity].
      apply mitered_side_back_edge; lra.
    + rewrite transform_top; cbn [X Y]; ring.
  - exists (transform (loc (left_side width height))
                      (mkVector 0 0 (height / 2))); split.
    + apply frame_solid_points; exists 0%nat; split; [lia|].
      apply placed_side_points; eexists; split; [|reflexivity].
      apply mitered_side_back_edge; lra.
    + rewrite transform_left; reflexivity.
  - exists (transform (loc (left_side width height))
                      (mkVector (frame_width g * 0.6) (frame_depth g + 8)
                                (height / 2))); split.
    + apply frame_solid_points; exists 0%nat; split; [lia|].
      apply placed_side_points; eexists; split; [|reflexivity].
      apply mitered_side_peak; lra.
    + rewrite transform_left; reflexivity.
Qed.

Lemma frame_of_bounding_box (w : World) :
  valid_parameters (globals w) ->
  bounding_box (points (frame_of w))
    (mkVector 0 (- default_height (globals w)) 0)
    (mkVector (default_width (globals w)) 0 (frame_depth (globals w) + 8)).
Proof.
  intros (Hpw & Hph & Hv); rewrite frame_of_solid.
  apply frame_solid_bounding_box; [exact Hv| |];
    unfold default_width, default_height; lra.
Qed.

(** C1, as stated, fails: with the dimensions written in the script the
    frame is 28 deep, not 20, because the decorative peak rises 8 above
    frame_depth. *)
Lemma script_frame_deeper_than_frame_depth :
  ~ bounding_box_size (points (frame_of (initial_world script_globals)))
      (mkVector (painting_width script_globals
                 + 2 * frame_width script_globals)
                (painting_height script_globals
                 + 2 * frame_width script_globals)
                (frame_depth script_globals)).
Proof.
  intros (lo & hi & (Hin & _) & _ & _ & Hz).
  pose proof (frame_of_bounding_box (initial_world script_globals)
                valid_script) as (_ & _ & _ & _ & _ & Hlow & Hhigh).
  destruct Hlow as (p0 & Hp0 & Hz0); destruct Hhigh as (p1 & Hp1 & Hz1).
  apply Hin in Hp0, Hp1; unfold in_box in Hp0, Hp1.
  cbn [X Y Z globals initial_world] in *; simpl in Hz, Hz1; lra.
Qed.

(** C1, amended: for every valid parameter set the frame that the script
    assembles has the axis-aligned bounding box
    (opening_width + 2 * frame_width, opening_height + 2 * frame_width,
    frame_depth + 8); it reaches from (0, -outer_height, 0) to
    (outer_width, 0, frame_depth + 8). *)
Theorem frame_bounding_box (w : World) :
  valid_parameters (globals w) ->
  bounding_box (points (frame_of w))
    (mkVector 0 (- default_height (globals w)) 0)
    (mkVector (default_width (globals w)) 0 (frame_depth (globals w) + 8)) /\
  bounding_box_size (points (frame_of w))
    (mkVector (painting_width (globals w) + 2 * frame_width (globals w))
              (painting_height (globals w) + 2 * frame_width (globals w))
              (frame_depth (globals w) + 8)).
Proof.
  intros Hv; pose proof (frame_of_bounding_box w Hv) as Hbox.
  split; [exact Hbox|].
  eexists; eexists; split; [exact Hbox|].
  unfold default_width, default_height; cbn [X Y Z]; repeat split; ring.
Qed.

Lemma frame_bounding_box_script :
  valid_parameters (globals (initial_world script_globals)) /\
  bounding_box_size (points (frame_of (initial_world script_globals)))
    (mkVector (200 + 2 * 40) (150 + 2 * 40) (20 + 8)).
Proof.
  split; [exact valid_script|].
  exact (proj2 (frame_bounding_box (initial_world script_globals)
                  valid_script)).
Defined.

(** ** Effects on the store *)

Lemma main_globals (w : World) : globals (snd (main w)) = globals w.
Proof.
  unfold main, bind, read_globals.
  apply (create_picture_frame_spec (default_width (globals w))
           (default_height (globals w)) w).
Qed.

(** C8: two calls with the same arguments, one after the other, return two
    objects that hold the same shape, so that whatever is computed from the
    shape (its bounding box, its volume) is the same for both; the first
    frame is not changed by the second call; and running the script again
    in the world it leaves behind builds the same frame. *)
Theorem pipeline_deterministic (width height : R) (w : World) :
  let first := create_picture_frame width height w in
  let second := create_picture_frame width height (snd first) in
  fst first <> fst second /\
  shape_at (snd second) (fst first) = shape_at (snd first) (fst first) /\
  shape_at (snd second) (fst second) = shape_at (snd first) (fst first) /\
  (forall (A : Type) (measure : Shape -> A),
     measure (shape_at (snd second) (fst second))
     = measure (shape_at (snd first) (fst first))) /\
  (forall lo hi,
     bounding_box (points (shape_at (snd second) (fst second))) lo hi <->
     bounding_box (points (shape_at (snd first) (fst first))) lo hi) /\
  frame_of (snd (main w)) = frame_of w.
Proof.
  cbv zeta.
  pose proof (create_picture_frame_spec width height w) as H1.
  destruct (create_picture_frame width height w) as [r1 w1].
  cbn [fst snd] in *.
  pose proof (create_picture_frame_spec width height w1) as H2.
  destruct (create_picture_frame width height w1) as [r2 w2].
  cbn zeta in H1, H2; cbn [fst snd] in *.
  destruct H1 as (Hr1 & Hn1 & Hg1 & _ & _ & Hs1).
  destruct H2 as (Hr2 & Hn2 & Hg2 & Hold2 & _ & Hs2).
  assert (Hkeep : shape_at w2 r1 = shape_at w1 r1).
  { unfold shape_at; rewrite Hold2 by lia; reflexivity. }
  assert (Hsame : shape_at w2 r2 = shape_at w1 r1).
  { rewrite (shape_at_heap _ _ _ Hs1), (shape_at_heap _ _ _ Hs2), Hg1.
    reflexivity. }
  split; [lia|]. split; [exact Hkeep|].
  split; [exact Hsame|].
  split; [intros A measure; now rewrite Hsame|].
  split; [intros lo hi; now rewrite Hsame|].
  now rewrite !frame_of_solid, main_globals.
Qed.

(** C9: a turn of the loop starts by calling the profile builder, which
    returns an object that did not exist before; the turn leaves the
    module-level dimensions and every object that existed before it as they
    were, although [locate] changes its receiver in place.  So after the
    whole function the dimensions are unchanged, every older object is
    unchanged, four different profile objects have been built, one per
    side, and each side still holds exactly the solid its own turn made. *)
Theorem sides_share_no_state (width height : R) (props : SideProps)
                             (w : World) :
  (exists rest, build_side props = bind create_frame_profile rest) /\
  fst (create_frame_profile w) = next_ref w /\
  (let w' := snd (build_side props w) in
   globals w' = globals w /\
   (forall r, (r < next_ref w)%nat -> heap w' r = heap w r) /\
   heap w' (next_ref w) = Some (OFace (profile_face (globals w))) /\
   heap w' (fst (build_side props w))
     = Some (OShape (placed_side (globals w) props))) /\
  (let w' := snd (create_picture_frame width height w) in
   globals w' = globals w /\
   (forall r, (r < next_ref w)%nat -> heap w' r = heap w r) /\
   (forall i j, (i < j < 4)%nat ->
      (6 * i + next_ref w <> 6 * j + next_ref w)%nat) /\
   (forall i, (i < 4)%nat ->
      heap w' (6 * i + next_ref w)%nat
        = Some (OFace (profile_face (globals w))) /\
      heap w' (5 + 6 * i + next_ref w)%nat
        = Some (OShape (placed_side (globals w)
                          (side_props width height i))))).
Proof.
  split; [eexists; reflexivity|]. split; [reflexivity|]. split.
  - pose proof (build_side_spec props w) as H; cbv zeta in *.
    destruct H as (_ & _ & Hg & Hold & Hface & Hside).
    repeat split; assumption.
  - pose proof (create_picture_frame_spec width height w) as H; cbv zeta in *.
    destruct H as (_ & _ & Hg & Hold & Hnew & _).
    split; [exact Hg|]. split; [exact Hold|]. split; [intros; lia|].
    exact Hnew.
Qed.

(** * Further properties of the script *)

(** ** The profile *)

Lemma x_range_lerp (xlo xhi t : R) (a b : Vec2) :
  0 <= t <= 1 -> xlo <= fst a <= xhi -> xlo <= fst b <= xhi ->
  xlo <= fst (lerp t a b) <= xhi.
Proof. unfold lerp; simpl; intros Ht Ha Hb; split; nra. Qed.

Lemma inner_top_on_profile (g : Globals) :
  on_wire (outer_wire (profile_face g)) (frame_width g, frame_depth g).
Proof.
  rewrite profile_outline.
  rewrite <- (line_end (frame_width g, rabbet_depth g)
                       (frame_width g, frame_depth g)).
  apply edge_end_on_wire; simpl; auto.
Qed.



Lemma on_wire_start (w : list Edge) (e : Edge) (p : Vec2) :
  In e w -> start_point e = p -> on_wire w p.
Proof. intros Hin <-; now apply edge_start_on_wire. Qed.

Lemma on_wire_end (w : list Edge) (e : Edge) (p : Vec2) :
  In e w -> end_point e = p -> on_wire w p.
Proof. intros Hin <-; now apply edge_end_on_wire. Qed.

Lemma lower_bound_lerp (ylo t : R) (a b : Vec2) :
  0 <= t <= 1 -> ylo <= snd a -> ylo <= snd b -> ylo <= snd (lerp t a b).
Proof. unfold lerp; simpl; intros Ht Ha Hb; nra. Qed.



(** No point of the outline that lies further in than the rabbet step is
    lower than the rabbet ledge. *)
Lemma outline_above_rabbet (g : Globals) (p : Vec2) :
  valid_profile g ->
  on_wire (outer_wire (profile_face g)) p ->
  frame_width g - rabbet_width g < fst p -> rabbet_depth g <= snd p.
Proof.
  intros (Hfw & Hfd & Hrw & Hrd & Hrw' & Hrd').
  rewrite profile_outline; intros (e & Hin & He) Hx.
  assert (Hfront : forall pts,
            pts <> [] -> Forall (fun q => frame_depth g <= snd q) pts ->
            on_edge (Bezier pts) p -> rabbet_depth g <= snd p).
  { intros pts Hne Hall Hon.
    pose proof (on_edge_inside (fun q => frame_depth g <= snd q)
                  (fun t a b => lower_bound_lerp (frame_depth g) t a b)
                  (Bezier pts) p Hne Hall Hon) as Hp.
    simpl in Hp; lra. }
  unfold listed_outline in Hin; simpl in Hin.
  destruct Hin as [<-|[<-|[<-|[<-|[<-|[<-|[<-|[<-|[]]]]]]]]];
    try (destruct He as (t & Ht & ->); unfold position_at, lerp in *;
         simpl in *; nra);
    (eapply Hfront; [| | exact He];
     [discriminate | repeat constructor; simpl; lra]).
Qed.

Lemma on_line_between (a b c d x y : R) (w : list Edge) :
  In (Line (a, c) (b, d)) w -> a < b -> a <= x <= b ->
  y = c + (x - a) / (b - a) * (d - c) ->
  on_wire w (x, y).
Proof.
  intros Hin Hab Hx ->; exists (Line (a, c) (b, d)); split; [exact Hin|].
  set (t := (x - a) / (b - a)).
  assert (Ht : t * (b - a) = x - a) by (unfold t; field; lra).
  exists t; split; [split; nra|].
  unfold position_at, lerp; cbn [fst snd]; f_equal; nra.
Qed.

Lemma face_above_rabbet (g : Globals) (x y : R) :
  valid_profile g -> in_face (profile_face g) (x, y) ->
  frame_width g - rabbet_width g < x -> rabbet_depth g <= y.
Proof.
  intros Hv (y1 & y2 & H1 & _ & Hy) Hx; cbn [fst snd] in *.
  pose proof (outline_above_rabbet g _ Hv H1 Hx) as Hlow.
  cbn [snd] in Hlow; lra.
Qed.

Lemma ledge_in_face (g : Globals) (x : R) :
  valid_profile g ->
  frame_width g - rabbet_width g <= x <= frame_width g ->
  in_face (profile_face g) (x, rabbet_depth g).
Proof.
  intros (Hfw & Hfd & Hrw & Hrd & Hrw' & Hrd') Hx.
  apply on_wire_in_face; rewrite profile_outline.
  eapply (on_line_between (frame_width g - rabbet_width g) (frame_width g)
            (rabbet_depth g) (rabbet_depth g));
    [unfold listed_outline; simpl; auto | lra | exact Hx | ring].
Qed.

Lemma back_in_face (g : Globals) (x : R) :
  valid_profile g -> 0 <= x <= frame_width g - rabbet_width g ->
  in_face (profile_face g) (x, 0).
Proof.
  intros (Hfw & Hfd & Hrw & Hrd & Hrw' & Hrd') Hx.
  apply on_wire_in_face; rewrite profile_outline.
  eapply (on_line_between 0 (frame_width g - rabbet_width g) 0 0);
    [unfold listed_outline; simpl; auto | lra | exact Hx | ring].
Qed.

(** For a valid profile the rabbet is there: the face of the profile has no
    point further in than the rabbet step and lower than the ledge, the
    ledge spans the width of the rabbet at height rabbet_depth, and the
    back of the molding spans the rest of the width at height 0. *)
Theorem rabbet_is_clear (g : Globals) :
  valid_profile g ->
  (forall x y, in_face (profile_face g) (x, y) ->
               frame_width g - rabbet_width g < x -> rabbet_depth g <= y) /\
  (forall x, frame_width g - rabbet_width g <= x <= frame_width g ->
             in_face (profile_face g) (x, rabbet_depth g)) /\
  (forall x, 0 <= x <= frame_width g - rabbet_width g ->
             in_face (profile_face g) (x, 0)).
Proof.
  intros Hv; split; [|split].
  - intros x y; now apply face_above_rabbet.
  - intros x; now apply ledge_in_face.
  - intros x; now apply back_in_face.
Qed.

Lemma rabbet_is_clear_script :
  valid_profile script_globals /\
  forall x y, in_face (profile_face script_globals) (x, y) ->
              frame_width script_globals - rabbet_width script_globals < x ->
              rabbet_depth script_globals <= y.
Proof.
  split; [apply valid_script|].
  apply (rabbet_is_clear script_globals (proj2 (proj2 valid_script))).
Defined.

(** ** Where the sides are put *)

Ltac rotate_eq :=
  unfold left_side, right_side, bottom_side, top_side, side_props,
    extrusion_axis, depth_axis, width_axis, rotate, rot_x, rot_y, rot_z;
  cbn [orientations nth snd loc X Y Z orientation];
  autorewrite with degrees; f_equal; ring.

(** In the assembly the left side runs along -Y, the right side along +Y,
    the bottom side along +X and the top side along -X (the comments beside
    [orientations] name other axes); the depth of the profile points along
    +Z on every side, and the width of the profile, from the outer to the
    inner edge, points towards the middle of the frame. *)
Theorem side_axes (width height : R) :
  (rotate (orientation (loc (left_side width height))) extrusion_axis
     = mkVector 0 (-1) 0 /\
   rotate (orientation (loc (right_side width height))) extrusion_axis
     = mkVector 0 1 0 /\
   rotate (orientation (loc (bottom_side width height))) extrusion_axis
     = mkVector 1 0 0 /\
   rotate (orientation (loc (top_side width height))) extrusion_axis
     = mkVector (-1) 0 0) /\
  (rotate (orientation (loc (left_side width height))) depth_axis
     = mkVector 0 0 1 /\
   rotate (orientation (loc (right_side width height))) depth_axis
     = mkVector 0 0 1 /\
   rotate (orientation (loc (bottom_side width height))) depth_axis
     = mkVector 0 0 1 /\
   rotate (orientation (loc (top_side width height))) depth_axis
     = mkVector 0 0 1) /\
  (rotate (orientation (loc (left_side width height))) width_axis
     = mkVector 1 0 0 /\
   rotate (orientation (loc (right_side width height))) width_axis
     = mkVector (-1) 0 0 /\
   rotate (orientation (loc (bottom_side width height))) width_axis
     = mkVector 0 1 0 /\
   rotate (orientation (loc (top_side width height))) width_axis
     = mkVector 0 (-1) 0).
Proof. repeat split; rotate_eq. Qed.

Lemma left_side_points (g : Globals) (width height : R) (p : Vector) :
  points (placed_side g (left_side width height)) p <->
  exists q, points (mitered_side g height) q /\
            p = mkVector (X q) (- Z q) (Y q).
Proof.
  rewrite placed_side_points.
  change (len (left_side width height)) with height.
  split; intros (q & Hq & ->); exists q; (split; [exact Hq|]);
    now rewrite transform_left.
Qed.

Lemma right_side_points (g : Globals) (width height : R) (p : Vector) :
  points (placed_side g (right_side width height)) p <->
  exists q, points (mitered_side g height) q /\
            p = mkVector (width - X q) (Z q - height) (Y q).
Proof.
  rewrite placed_side_points.
  change (len (right_side width height)) with height.
  split; intros (q & Hq & ->); exists q; (split; [exact Hq|]);
    now rewrite transform_right.
Qed.

Lemma bottom_side_points (g : Globals) (width height : R) (p : Vector) :
  points (placed_side g (bottom_side width height)) p <->
  exists q, points (mitered_side g width) q /\
            p = mkVector (Z q) (X q - height) (Y q).
Proof.
  rewrite placed_side_points.
  change (len (bottom_side width height)) with width.
  split; intros (q & Hq & ->); exists q; (split; [exact Hq|]);
    now rewrite transform_bottom.
Qed.

Lemma top_side_points (g : Globals) (width height : R) (p : Vector) :
  points (placed_side g (top_side width height)) p <->
  exists q, points (mitered_side g width) q /\
            p = mkVector (width - Z q) (- X q) (Y q).
Proof.
  rewrite placed_side_points.
  change (len (top_side width height)) with width.
  split; intros (q & Hq & ->); exists q; (split; [exact Hq|]);
    now rewrite transform_top.
Qed.

Lemma frame_solid_sides (g : Globals) (width height : R) (p : Vector) :
  points (frame_solid g width height) p <->
  points (placed_side g (left_side width height)) p \/
  points (placed_side g (right_side width height)) p \/
  points (placed_side g (bottom_side width height)) p \/
  points (placed_side g (top_side width height)) p.
Proof. unfold frame_solid; rewrite !points_fuse; tauto. Qed.

Lemma left_side_strip (g : Globals) (width height : R) (p : Vector) :
  valid_profile g -> 0 <= width -> 0 <= height ->
  points (placed_side g (left_side width height)) p ->
  in_box (mkVector 0 (- height) 0)
         (mkVector (frame_width g) 0 (frame_depth g + 8)) p.
Proof.
  intros Hv Hw Hh Hp; unfold in_box; cbn [X Y Z].
  apply left_side_points in Hp; destruct Hp as (q & Hq & ->).
  apply (mitered_side_bounds g _ _ Hv Hh) in Hq; cbn [X Y Z]; lra.
Qed.

Lemma right_side_strip (g : Globals) (width height : R) (p : Vector) :
  valid_profile g -> 0 <= width -> 0 <= height ->
  points (placed_side g (right_side width height)) p ->
  in_box (mkVector (width - frame_width g) (- height) 0)
         (mkVector width 0 (frame_depth g + 8)) p.
Proof.
  intros Hv Hw Hh Hp; unfold in_box; cbn [X Y Z].
  apply right_side_points in Hp; destruct Hp as (q & Hq & ->).
  apply (mitered_side_bounds g _ _ Hv Hh) in Hq; cbn [X Y Z]; lra.
Qed.

Lemma bottom_side_strip (g : Globals) (width height : R) (p : Vector) :
  valid_profile g -> 0 <= width -> 0 <= height ->
  points (placed_side g (bottom_side width height)) p ->
  in_box (mkVector 0 (- height) 0)
         (mkVector width (- height + frame_width g) (frame_depth g + 8)) p.
Proof.
  intros Hv Hw Hh Hp; unfold in_box; cbn [X Y Z].
  apply bottom_side_points in Hp; destruct Hp as (q & Hq & ->).
  apply (mitered_side_bounds g _ _ Hv Hw) in Hq; cbn [X Y Z]; lra.
Qed.

Lemma top_side_strip (g : Globals) (width height : R) (p : Vector) :
  valid_profile g -> 0 <= width -> 0 <= height ->
  points (placed_side g (top_side width height)) p ->
  in_box (mkVector 0 (- frame_width g) 0)
         (mkVector width 0 (frame_depth g + 8)) p.
Proof.
  intros Hv Hw Hh Hp; unfold in_box; cbn [X Y Z].
  apply top_side_points in Hp; destruct Hp as (q & Hq & ->).
  apply (mitered_side_bounds g _ _ Hv Hw) in Hq; cbn [X Y Z]; lra.
Qed.

(** Each side stays in its own strip along one outer edge of the frame: the
    left side within frame_width of the edge X = 0, the right side within
    frame_width of X = width, the bottom side within frame_width of
    Y = -height and the top side within frame_width of Y = 0, all between
    the back Z = 0 and the peak Z = frame_depth + 8. *)
Theorem sides_in_strips (g : Globals) (width height : R) :
  valid_profile g -> 0 <= width -> 0 <= height ->
  (forall p, points (placed_side g (left_side width height)) p ->
     in_box (mkVector 0 (- height) 0)
            (mkVector (frame_width g) 0 (frame_depth g + 8)) p) /\
  (forall p, points (placed_side g (right_side width height)) p ->
     in_box (mkVector (width - frame_width g) (- height) 0)
            (mkVector width 0 (frame_depth g + 8)) p) /\
  (forall p, points (placed_side g (bottom_side width height)) p ->
     in_box (mkVector 0 (- height) 0)
            (mkVector width (- height + frame_width g) (frame_depth g + 8))
            p) /\
  (forall p, points (placed_side g (top_side width height)) p ->
     in_box (mkVector 0 (- frame_width g) 0)
            (mkVector width 0 (frame_depth g + 8)) p).
Proof.
  intros Hv Hw Hh; split; [|split; [|split]]; intros p.
  - now apply left_side_strip.
  - now apply right_side_strip.
  - now apply bottom_side_strip.
  - now apply top_side_strip.
Qed.

Lemma sides_in_strips_script :
  (valid_profile script_globals /\ 0 <= 280 /\ 0 <= 230) /\
  forall p, points (placed_side script_globals (left_side 280 230)) p ->
    in_box (mkVector 0 (- 230) 0)
           (mkVector (frame_width script_globals) 0
                     (frame_depth script_globals + 8)) p.
Proof.
  assert (H1 : valid_profile script_globals) by apply valid_script.
  assert (H2 : 0 <= 280) by lra.
  assert (H3 : 0 <= 230) by lra.
  split; [split; [exact H1 | split; [exact H2 | exact H3]]|].
  apply (sides_in_strips script_globals 280 230 H1 H2 H3).
Defined.

Lemma mitered_side_inner_edge (g : Globals) (length : R) :
  0 < frame_width g -> 2 * frame_width g < length ->
  points (mitered_side g length)
         (mkVector (frame_width g) (frame_depth g) (length / 2)).
Proof.
  intros Hfw Hl; apply mitered_side_member; cbn [X Y Z]; try lra.
  apply on_wire_in_face, inner_top_on_profile.
Qed.

Lemma frame_solid_opening (g : Globals) (width height : R) (p : Vector) :
  valid_profile g -> 0 <= width -> 0 <= height ->
  points (frame_solid g width height) p -> ~ in_opening g width height p.
Proof.
  intros Hv Hw Hh Hp [Hx Hy].
  apply frame_solid_sides in Hp.
  destruct Hp as [Hp | [Hp | [Hp | Hp]]];
    [apply left_side_strip in Hp | apply right_side_strip in Hp |
     apply bottom_side_strip in Hp | apply top_side_strip in Hp];
    try assumption; unfold in_box in Hp; cbn [X Y Z] in Hp; lra.
Qed.

(** The opening of the assembled frame is the painting: for every valid
    parameter set no point of the frame lies further than frame_width from
    all four outer edges, a rectangle of painting_width by painting_height,
    and the frame reaches each of the four edges of that rectangle. *)
Theorem opening_fits_painting (w : World) :
  valid_parameters (globals w) ->
  (forall p, points (frame_of w) p ->
     ~ (frame_width (globals w) < X p
          < frame_width (globals w) + painting_width (globals w) /\
        - (frame_width (globals w) + painting_height (globals w)) < Y p
          < - frame_width (globals w))) /\
  (exists p, points (frame_of w) p /\ X p = frame_width (globals w) /\
     - (frame_width (globals w) + painting_height (globals w)) < Y p
       < - frame_width (globals w)) /\
  (exists p, points (frame_of w) p /\
     X p = frame_width (globals w) + painting_width (globals w) /\
     - (frame_width (globals w) + painting_height (globals w)) < Y p
       < - frame_width (globals w)) /\
  (exists p, points (frame_of w) p /\
     Y p = - (frame_width (globals w) + painting_height (globals w)) /\
     frame_width (globals w) < X p
       < frame_width (globals w) + painting_width (globals w)) /\
  (exists p, points (frame_of w) p /\ Y p = - frame_width (globals w) /\
     frame_width (globals w) < X p
       < frame_width (globals w) + painting_width (globals w)).
Proof.
  intros (Hpw & Hph & Hv); rewrite frame_of_solid.
  set (g := globals w) in *.
  assert (Hfw : 0 < frame_width g) by apply Hv.
  assert (Hw : 2 * frame_width g < default_width g)
    by (unfold default_width; lra).
  assert (Hh : 2 * frame_width g < default_height g)
    by (unfold default_height; lra).
  split; [|split; [|split; [|split]]].
  - intros p Hp Hin.
    apply (frame_solid_opening g (default_width g) (default_height g) p Hv
             ltac:(lra) ltac:(lra) Hp).
    unfold in_opening, default_width, default_height; lra.
  - exists (mkVector (frame_width g) (- (default_height g / 2))
                     (frame_depth g)).
    split; [|cbn [X Y]; unfold default_height in *; split; lra].
    apply frame_solid_sides; left; apply left_side_points.
    eexists; split; [apply (mitered_side_inner_edge g _ Hfw Hh)|reflexivity].
  - exists (mkVector (default_width g - frame_width g)
                     (default_height g / 2 - default_height g)
                     (frame_depth g)).
    split; [|cbn [X Y]; unfold default_width, default_height in *; split; lra].
    apply frame_solid_sides; right; left; apply right_side_points.
    eexists; split; [apply (mitered_side_inner_edge g _ Hfw Hh)|reflexivity].
  - exists (mkVector (default_width g / 2)
                     (frame_width g - default_height g) (frame_depth g)).
    split; [|cbn [X Y]; unfold default_width, default_height in *; split; lra].
    apply frame_solid_sides; right; right; left; apply bottom_side_points.
    eexists; split; [apply (mitered_side_inner_edge g _ Hfw Hw)|reflexivity].
  - exists (mkVector (default_width g - default_width g / 2)
                     (- frame_width g) (frame_depth g)).
    split; [|cbn [X Y]; unfold default_width, default_height in *; split; lra].
    apply frame_solid_sides; right; right; right; apply top_side_points.
    eexists; split; [apply (mitered_side_inner_edge g _ Hfw Hw)|reflexivity].
Qed.

Lemma opening_fits_painting_script :
  valid_parameters (globals (initial_world script_globals)) /\
  forall p, points (frame_of (initial_world script_globals)) p ->
    ~ (40 < X p < 40 + 200 /\ - (40 + 150) < Y p < - 40).
Proof.
  split; [exact valid_script|].
  exact (proj1 (opening_fits_painting (initial_world script_globals)
                  valid_script)).
Defined.

Lemma frame_solid_recess (g : Globals) (width height : R) (p : Vector) :
  valid_profile g -> 0 <= width -> 0 <= height ->
  points (frame_solid g width height) p -> ~ in_recess g width height p.
Proof.
  intros Hv Hw Hh Hp (Hx & Hy & Hz).
  assert (Hclear : forall q length, 0 <= length ->
            points (mitered_side g length) q -> Y q < rabbet_depth g ->
            X q <= frame_width g - rabbet_width g).
  { intros q length Hl Hq Hlow.
    apply mitered_side_in_extruded, points_extruded_side in Hq; [|exact Hl].
    destruct Hq as [Hf _].
    destruct (Rle_lt_dec (X q) (frame_width g - rabbet_width g))
      as [Hle | Hgt]; [exact Hle|].
    pose proof (face_above_rabbet g _ _ Hv Hf Hgt); lra. }
  apply frame_solid_sides in Hp.
  destruct Hp as [Hp | [Hp | [Hp | Hp]]].
  - apply left_side_points in Hp; destruct Hp as (q & Hq & ->).
    cbn [X Y Z] in *; pose proof (Hclear q height Hh Hq Hz); lra.
  - apply right_side_points in Hp; destruct Hp as (q & Hq & ->).
    cbn [X Y Z] in *; pose proof (Hclear q height Hh Hq Hz); lra.
  - apply bottom_side_points in Hp; destruct Hp as (q & Hq & ->).
    cbn [X Y Z] in *; pose proof (Hclear q width Hw Hq Hz); lra.
  - apply top_side_points in Hp; destruct Hp as (q & Hq & ->).
    cbn [X Y Z] in *; pose proof (Hclear q width Hw Hq Hz); lra.
Qed.

(** The recess for the painting is clear: for every valid parameter set no
    point of the assembled frame lies below rabbet_depth within the
    rectangle that is rabbet_width larger than the opening all around
    (painting_width + 2 * rabbet_width by painting_height +
    2 * rabbet_width); and the ledge on which the painting rests is there,
    at height rabbet_depth along the left side. *)
Theorem recess_takes_painting (w : World) :
  valid_parameters (globals w) ->
  (forall p, points (frame_of w) p ->
     ~ (frame_width (globals w) - rabbet_width (globals w) < X p
          < frame_width (globals w) + painting_width (globals w)
            + rabbet_width (globals w) /\
        - (frame_width (globals w) + painting_height (globals w)
           + rabbet_width (globals w)) < Y p
          < - (frame_width (globals w) - rabbet_width (globals w)) /\
        Z p < rabbet_depth (globals w))) /\
  (forall x,
     frame_width (globals w) - rabbet_width (globals w) <= x
       <= frame_width (globals w) ->
     points (frame_of w)
            (mkVector x (- (default_height (globals w) / 2))
                      (rabbet_depth (globals w)))).
Proof.
  intros (Hpw & Hph & Hv); rewrite frame_of_solid.
  set (g := globals w) in *.
  pose proof Hv as (Hfw & Hfd & Hrw & Hrd & Hrw' & Hrd').
  split.
  - intros p Hp Hin.
    apply (frame_solid_recess g (default_width g) (default_height g) p Hv
             ltac:(unfold default_width; lra)
             ltac:(unfold default_height; lra) Hp).
    unfold in_recess, default_width, default_height; lra.
  - intros x Hx; apply frame_solid_sides; left; apply left_side_points.
    exists (mkVector x (rabbet_depth g) (default_height g / 2)).
    split; [|reflexivity].
    apply mitered_side_member; cbn [X Y Z];
      [apply (ledge_in_face g x Hv Hx) | lra |
       unfold default_height; lra].
Qed.

Lemma recess_takes_painting_script :
  valid_parameters (globals (initial_world script_globals)) /\
  forall p, points (frame_of (initial_world script_globals)) p ->
    ~ (40 - 8 < X p < 40 + 200 + 8 /\
       - (40 + 150 + 8) < Y p < - (40 - 8) /\ Z p < 6).
Proof.
  split; [exact valid_script|].
  exact (proj1 (recess_takes_painting (initial_world script_globals)
                  valid_script)).
Defined.

(** ** Symmetry *)

Lemma mirror_involutive (length : R) (p : Vector) :
  mirror length (mirror length p) = p.
Proof. destruct p; unfold mirror; cbn [X Y Z]; f_equal; ring. Qed.

Lemma reflect_x_involutive (width : R) (p : Vector) :
  reflect_x width (reflect_x width p) = p.
Proof. destruct p; unfold reflect_x; cbn [X Y Z]; f_equal; ring. Qed.

Lemma reflect_y_involutive (height : R) (p : Vector) :
  reflect_y height (reflect_y height p) = p.
Proof. destruct p; unfold reflect_y; cbn [X Y Z]; f_equal; ring. Qed.

Lemma extruded_side_mirror (g : Globals) (length : R) (q : Vector) :
  points (extruded_side g length) q ->
  points (extruded_side g length) (mirror length q).
Proof.
  rewrite !points_at_origin by reflexivity.
  unfold extruded_side, extrude, mirror; cbn [geometry X Y Z].
  intros [Hf Hz]; split; [exact Hf|].
  unfold Rmin, Rmax in *; destruct (Rle_dec 0 length); lra.
Qed.

Lemma mitered_side_mirror (g : Globals) (length : R) (q : Vector) :
  points (mitered_side g length) q ->
  points (mitered_side g length) (mirror length q).
Proof.
  unfold mitered_side; rewrite !points_cut.
  intros [[Hs H1] H2]; repeat split.
  - now apply extruded_side_mirror.
  - now rewrite <- cut_two_mirrors_cut_one.
  - now rewrite cut_two_mirrors_cut_one, mirror_involutive.
Qed.

Lemma frame_solid_reflect_x (g : Globals) (width height : R) (p : Vector) :
  points (frame_solid g width height) p ->
  points (frame_solid g width height) (reflect_x width p).
Proof.
  rewrite !frame_solid_sides; unfold reflect_x.
  intros [Hp | [Hp | [Hp | Hp]]].
  - apply left_side_points in Hp; destruct Hp as (q & Hq & ->).
    right; left; apply right_side_points.
    exists (mirror height q); split; [now apply mitered_side_mirror|].
    unfold mirror; cbn [X Y Z]; f_equal; ring.
  - apply right_side_points in Hp; destruct Hp as (q & Hq & ->).
    left; apply left_side_points.
    exists (mirror height q); split; [now apply mitered_side_mirror|].
    unfold mirror; cbn [X Y Z]; f_equal; ring.
  - apply bottom_side_points in Hp; destruct Hp as (q & Hq & ->).
    right; right; left; apply bottom_side_points.
    exists (mirror width q); split; [now apply mitered_side_mirror|].
    unfold mirror; cbn [X Y Z]; f_equal; ring.
  - apply top_side_points in Hp; destruct Hp as (q & Hq & ->).
    right; right; right; apply top_side_points.
    exists (mirror width q); split; [now apply mitered_side_mirror|].
    unfold mirror; cbn [X Y Z]; f_equal; ring.
Qed.

Lemma frame_solid_reflect_y (g : Globals) (width height : R) (p : Vector) :
  points (frame_solid g width height) p ->
  points (frame_solid g width height) (reflect_y height p).
Proof.
  rewrite !frame_solid_sides; unfold reflect_y.
  intros [Hp | [Hp | [Hp | Hp]]].
  - apply left_side_points in Hp; destruct Hp as (q & Hq & ->).
    left; apply left_side_points.
    exists (mirror height q); split; [now apply mitered_side_mirror|].
    unfold mirror; cbn [X Y Z]; f_equal; ring.
  - apply right_side_points in Hp; destruct Hp as (q & Hq & ->).
    right; left; apply right_side_points.
    exists (mirror height q); split; [now apply mitered_side_mirror|].
    unfold mirror; cbn [X Y Z]; f_equal; ring.
  - apply bottom_side_points in Hp; destruct Hp as (q & Hq & ->).
    right; right; right; apply top_side_points.
    exists (mirror width q); split; [now apply mitered_side_mirror|].
    unfold mirror; cbn [X Y Z]; f_equal; ring.
  - apply top_side_points in Hp; destruct Hp as (q & Hq & ->).
    right; right; left; apply bottom_side_points.
    exists (mirror width q); split; [now apply mitered_side_mirror|].
    unfold mirror; cbn [X Y Z]; f_equal; ring.
Qed.

(** Whatever the dimensions, every mitered side is its own mirror image in
    the plane halfway along it, and the assembled frame is its own mirror
    image in both vertical planes through its middle: the left and the
    right side are exchanged by X -> width - X, the bottom and the top
    side by Y -> - height - Y. *)
Theorem frame_is_symmetric (g : Globals) (width height : R) (p : Vector) :
  (points (mitered_side g height) (mirror height p) <->
   points (mitered_side g height) p) /\
  (points (frame_solid g width height) (reflect_x width p) <->
   points (frame_solid g width height) p) /\
  (points (frame_solid g width height) (reflect_y height p) <->
   points (frame_solid g width height) p) /\
  (points (placed_side g (left_side width height)) (reflect_x width p) <->
   points (placed_side g (right_side width height)) p) /\
  (points (placed_side g (bottom_side width height)) (reflect_y height p) <->
   points (placed_side g (top_side width height)) p).
Proof.
  split; [|split; [|split; [|split]]].
  - split; intros H; [|now apply mitered_side_mirror].
    rewrite <- (mirror_involutive height p); now apply mitered_side_mirror.
  - split; intros H; [|now apply frame_solid_reflect_x].
    rewrite <- (reflect_x_involutive width p).
    now apply frame_solid_reflect_x.
  - split; intros H; [|now apply frame_solid_reflect_y].
    rewrite <- (reflect_y_involutive height p).
    now apply frame_solid_reflect_y.
  - rewrite left_side_points, right_side_points; unfold reflect_x.
    split; intros (q & Hq & Heq); exists (mirror height q);
      (split; [now apply mitered_side_mirror|]);
      destruct p as [x y z]; unfold mirror; cbn [X Y Z] in *;
      injection Heq; intros; subst; f_equal; lra.
  - rewrite bottom_side_points, top_side_points; unfold reflect_y.
    split; intros (q & Hq & Heq); exists (mirror width q);
      (split; [now apply mitered_side_mirror|]);
      destruct p as [x y z]; unfold mirror; cbn [X Y Z] in *;
      injection Heq; intros; subst; f_equal; lra.
Qed.

(** ** Overlap of the sides *)

Lemma mitered_side_between (g : Globals) (length : R) (q : Vector) :
  valid_profile g -> 8 <= frame_depth g -> 2 * frame_width g <= length ->
  points (mitered_side g length) q ->
  0 <= X q <= frame_width g /\ X q < Z q < length - X q.
Proof.
  intros Hv Hdeep Hl Hq.
  assert (H0 : 0 <= length) by (destruct Hv as (Hfw & _); lra).
  pose proof (mitered_side_bounds g length q Hv H0 Hq) as (Hx & _ & _).
  apply (mitered_side_points g length q Hv Hdeep Hl) in Hq.
  destruct Hq as (_ & H1 & H2).
  apply kept_by_cut_one in H1; apply kept_by_cut_two in H2; lra.
Qed.

Ltac same_point H :=
  injection H; clear H; intros.



(** What rises above the cutting boxes is not cut at all. *)
Lemma above_boxes_uncut (g : Globals) (length : R) (q : Vector) :
  points (extruded_side g length) q -> 2 * frame_depth g < Y q ->
  points (mitered_side g length) q.
Proof.
  intros Hq Hy; unfold mitered_side; rewrite !points_cut.
  repeat split; [exact Hq | |].
  - rewrite points_cut_one; lra.
  - rewrite points_cut_two; lra.
Qed.



(** * The boxed variant *)

Lemma boxed_blank_points (g : Globals) (width height : R) (p : Vector) :
  0 <= frame_depth g -> 0 <= rabbet_depth g ->
  (points (boxed_blank g width height) p <->
   (Rabs (X p) <= width / 2 + frame_width g /\
    Rabs (Y p) <= height / 2 + frame_width g /\
    0 <= Z p <= frame_depth g) /\
   ~ (Rabs (X p) <= width / 2 /\ Rabs (Y p) <= height / 2 /\
      0 <= Z p <= frame_depth g) /\
   ~ (Rabs (X p) <= width / 2 + rabbet_width g /\
      Rabs (Y p) <= height / 2 + rabbet_width g /\
      0 <= Z p <= rabbet_depth g)).
Proof.
  intros Hfd Hrd; unfold boxed_blank; cbv zeta.
  rewrite !points_cut, !points_at_origin by reflexivity.
  unfold Box, extrude_sketch, Rectangle, within, align_offset.
  cbn [geometry fst snd].
  replace (frame_depth g + - frame_depth g) with 0 by ring.
  rewrite (Rmin_right (frame_depth g) 0), (Rmax_left (frame_depth g) 0)
    by lra.
  rewrite (Rmin_left 0 (0 + rabbet_depth g)),
    (Rmax_right 0 (0 + rabbet_depth g)) by lra.
  unfold Rabs.
  destruct (Rcase_abs (X p)), (Rcase_abs (Y p)); split; intros H;
    repeat split; try lra; intros Hn; lra.
Qed.

Lemma boxed_blank_box (g : Globals) (width height : R) :
  valid_profile g -> 0 <= width -> 0 <= height ->
  bounding_box (points (boxed_blank g width height))
    (mkVector (- (width / 2 + frame_width g))
              (- (height / 2 + frame_width g)) 0)
    (mkVector (width / 2 + frame_width g) (height / 2 + frame_width g)
              (frame_depth g)).
Proof.
  intros (Hfw & Hfd & Hrw & Hrd & Hrw' & Hrd') Hw Hh.
  assert (Hin : forall x y z,
            (x = width / 2 + frame_width g /\ Rabs y <= height / 2 \/
             y = height / 2 + frame_width g /\ Rabs x <= width / 2) ->
            0 <= z <= frame_depth g ->
            (points (boxed_blank g width height) (mkVector x y z) /\
             points (boxed_blank g width height) (mkVector (- x) (- y) z))).
  { intros x y z Hxy Hz.
    rewrite !boxed_blank_points by lra; cbn [X Y Z].
    rewrite !Rabs_Ropp.
    assert (Hx : Rabs x <= width / 2 + frame_width g /\
                 Rabs y <= height / 2 + frame_width g /\
                 (width / 2 + rabbet_width g < Rabs x \/
                  height / 2 + rabbet_width g < Rabs y)).
    { destruct Hxy as [[-> Hy] | [-> Hx]].
      - rewrite !(Rabs_pos_eq (width / 2 + frame_width g)) by lra.
        split; [lra|]; split; [lra|]; left; lra.
      - rewrite !(Rabs_pos_eq (height / 2 + frame_width g)) by lra.
        split; [lra|]; split; [lra|]; right; lra. }
    destruct Hx as (Hx & Hy & Hout).
    repeat split; try lra; intros Hn; destruct Hout; lra. }
  unfold bounding_box, in_box; cbn [X Y Z].
  split; [|split; [|split; [|split; [|split; [|split]]]]].
  - intros p Hp; apply boxed_blank_points in Hp; [|lra|lra].
    destruct Hp as ((Hx & Hy & Hz) & _).
    unfold Rabs in Hx, Hy.
    destruct (Rcase_abs (X p)), (Rcase_abs (Y p)); lra.
  - exists (mkVector (- (width / 2 + frame_width g)) (- 0) 0); split.
    + apply (Hin (width / 2 + frame_width g) 0 0);
        [left; split; [reflexivity|]|lra].
      rewrite Rabs_R0; lra.
    + reflexivity.
  - exists (mkVector (width / 2 + frame_width g) 0 0); split.
    + apply (Hin (width / 2 + frame_width g) 0 0);
        [left; split; [reflexivity|]|lra].
      rewrite Rabs_R0; lra.
    + reflexivity.
  - exists (mkVector (- 0) (- (height / 2 + frame_width g)) 0); split.
    + apply (Hin 0 (height / 2 + frame_width g) 0);
        [right; split; [reflexivity|]|lra].
      rewrite Rabs_R0; lra.
    + reflexivity.
  - exists (mkVector 0 (height / 2 + frame_width g) 0); split.
    + apply (Hin 0 (height / 2 + frame_width g) 0);
        [right; split; [reflexivity|]|lra].
      rewrite Rabs_R0; lra.
    + reflexivity.
  - exists (mkVector (width / 2 + frame_width g) 0 0); split.
    + apply (Hin (width / 2 + frame_width g) 0 0);
        [left; split; [reflexivity|]|lra].
      rewrite Rabs_R0; lra.
    + reflexivity.
  - exists (mkVector (width / 2 + frame_width g) 0 (frame_depth g)); split.
    + apply (Hin (width / 2 + frame_width g) 0 (frame_depth g));
        [left; split; [reflexivity|]|lra].
      rewrite Rabs_R0; lra.
    + reflexivity.
Qed.

(** The two scripts read the arguments of [create_picture_frame]
    differently.  Called with the same width and height, the boxed variant
    takes them for the opening and builds a blank that is
    width + 2 * frame_width by height + 2 * frame_width by frame_depth,
    centred on the origin; the swept variant takes them for the outer size
    and builds a frame that is width by height by frame_depth + 8, with a
    corner at the origin. *)
Theorem variants_read_arguments_differently (g : Globals) (width height : R) :
  valid_profile g ->
  2 * frame_width g <= width -> 2 * frame_width g <= height ->
  bounding_box (points (boxed_blank g width height))
    (mkVector (- (width / 2 + frame_width g))
              (- (height / 2 + frame_width g)) 0)
    (mkVector (width / 2 + frame_width g) (height / 2 + frame_width g)
              (frame_depth g)) /\
  bounding_box_size (points (boxed_blank g width height))
    (mkVector (width + 2 * frame_width g) (height + 2 * frame_width g)
              (frame_depth g)) /\
  bounding_box (points (frame_solid g width height))
    (mkVector 0 (- height) 0) (mkVector width 0 (frame_depth g + 8)) /\
  bounding_box_size (points (frame_solid g width height))
    (mkVector width height (frame_depth g + 8)).
Proof.
  intros Hv Hw Hh.
  assert (Hfw : 0 < frame_width g) by apply Hv.
  pose proof (boxed_blank_box g width height Hv ltac:(lra) ltac:(lra)) as Hb.
  pose proof (frame_solid_bounding_box g width height Hv Hw Hh) as Hs.
  split; [exact Hb|]. split; [|split; [exact Hs|]].
  - eexists; eexists; split; [exact Hb|]; cbn [X Y Z]; repeat split; lra.
  - eexists; eexists; split; [exact Hs|]; cbn [X Y Z]; repeat split; lra.
Qed.

Lemma variants_read_arguments_differently_script :
  (valid_profile script_globals /\ 2 * frame_width script_globals <= 200 /\
   2 * frame_width script_globals <= 150) /\
  bounding_box_size (points (boxed_blank script_globals 200 150))
    (mkVector (200 + 2 * 40) (150 + 2 * 40) 20) /\
  bounding_box_size (points (frame_solid script_globals 200 150))
    (mkVector 200 150 (20 + 8)).
Proof.
  assert (H1 : valid_profile script_globals) by apply valid_script.
  assert (H2 : 2 * frame_width script_globals <= 200) by (simpl; lra).
  assert (H3 : 2 * frame_width script_globals <= 150) by (simpl; lra).
  split; [split; [exact H1 | split; [exact H2 | exact H3]]|].
  pose proof (variants_read_arguments_differently script_globals 200 150
                H1 H2 H3) as (_ & Hb & _ & Hs).
  split; [exact Hb | exact Hs].
Defined.





Ltac at_center :=
  cbn [X Y Z];
  rewrite ?Rabs_Ropp, ?Rabs_R0;
  repeat match goal with
         | |- context [ Rabs ?e ] => rewrite (Rabs_pos_eq e) by lra
         end.

(** The two predicates of the boxed variant that choose the edges of the
    front by the place of their centres work for moldings of frame_width 2
    and more only.  The fillet predicate accepts the four outer edges of
    the front; it accepts an edge of the opening exactly when
    frame_width < 2.  The chamfer predicate accepts the four edges of the
    opening; it accepts an outer edge exactly when frame_width < 1. *)
Theorem edge_filters_need_wide_molding (g : Globals) (width height : R) :
  0 <= width -> 0 <= height -> 0 < frame_width g ->
  Forall (outer_edge_filter g width height)
         (rectangle_edge_centers (width + 2 * frame_width g)
                                 (height + 2 * frame_width g)
                                 (frame_depth g)) /\
  Forall (inner_edge_filter width height)
         (rectangle_edge_centers width height (frame_depth g)) /\
  (forall c, In c (rectangle_edge_centers width height (frame_depth g)) ->
             (outer_edge_filter g width height c <-> frame_width g < 2)) /\
  (forall c, In c (rectangle_edge_centers (width + 2 * frame_width g)
                                          (height + 2 * frame_width g)
                                          (frame_depth g)) ->
             (inner_edge_filter width height c <-> frame_width g < 1)).
Proof.
  intros Hw Hh Hfw.
  unfold rectangle_edge_centers, outer_edge_filter, inner_edge_filter.
  split; [|split; [|split]].
  - repeat (apply Forall_cons || apply Forall_nil); at_center;
      ((left; lra) || (right; lra)).
  - repeat (apply Forall_cons || apply Forall_nil); at_center; lra.
  - intros c [<- | [<- | [<- | [<- | []]]]]; at_center;
      (split; [intros [H | H]; lra | intros H; (left; lra) || (right; lra)]).
  - intros c [<- | [<- | [<- | [<- | []]]]]; at_center;
      (split; [intros [H1 H2]; lra | intros H; split; lra]).
Qed.

Lemma edge_filters_need_wide_molding_script :
  (0 <= 200 /\ 0 <= 150 /\ 0 < frame_width script_globals) /\
  forall c,
    In c (rectangle_edge_centers 200 150 (frame_depth script_globals)) ->
            ~ outer_edge_filter script_globals 200 150 c.
Proof.
  assert (H1 : 0 <= 200) by lra.
  assert (H2 : 0 <= 150) by lra.
  assert (H3 : 0 < frame_width script_globals) by (simpl; lra).
  split; [split; [exact H1 | split; [exact H2 | exact H3]]|].
  intros c Hc Hf.
  pose proof (proj1 (proj1 (proj2 (proj2 (edge_filters_need_wide_molding
                  script_globals 200 150 H1 H2 H3))) c Hc) Hf) as Hthin.
  simpl in Hthin; lra.
Defined.
